(** * ts-lib-result: the [Option] and [Result] containers of [src/index.ts]

    A shallow embedding of the four classes [OptionSome], [OptionNone],
    [ResultOk], [ResultErr] and of the four free constructors [some],
    [none], [ok], [err].

    The classes are JavaScript classes: their instances live on the heap
    and have an identity ([return this] hands back the very same
    reference), their payloads are arbitrary JavaScript values compared
    with [===], the mappers they are given are arbitrary effectful
    functions, and the failing operations [throw] an [Error] object.  The
    embedding therefore runs in a small state-and-exception monad over a
    heap of objects. *)

From Stdlib Require Import ZArith String Ascii List Bool.
From Stdlib Require Import SpecFloat.
From stdpp Require Import base option gmap strings list fin_maps pretty.

Local Open Scope string_scope.

(* ===================================================================== *)
(** ** JavaScript values *)
(* ===================================================================== *)

(** Heap addresses: the identity of an object. *)
Abbreviation loc := positive.

(** The language types of ECMAScript.  A number is an IEEE-754 value
    ([spec_float] has signed zeros, infinities and NaN; the numbers of
    JavaScript are its canonical binary64 members, as [binary_normalize
    53 1024] builds them); an object is known to a value only through
    its address. *)
Inductive value : Type :=
| VUndefined
| VNull
| VBool (b : bool)
| VNumber (n : spec_float)
| VBigInt (z : Z)
| VString (s : string)
| VSymbol (id : positive)
| VRef (l : loc).

(** [a === b]: same type and same primitive value, or the same object.
    Numbers follow IEEE equality: [NaN] differs from itself and [+0]
    equals [-0]. *)
Definition strict_equals (a b : value) : bool :=
  match a, b with
  | VUndefined, VUndefined => true
  | VNull, VNull => true
  | VBool x, VBool y => Bool.eqb x y
  | VNumber x, VNumber y => SFeqb x y
  | VBigInt x, VBigInt y => Z.eqb x y
  | VString x, VString y => String.eqb x y
  | VSymbol x, VSymbol y => Pos.eqb x y
  | VRef x, VRef y => Pos.eqb x y
  | _, _ => false
  end.

(** [ToBoolean]: what [&&] tests. *)
Definition truthy (a : value) : bool :=
  match a with
  | VUndefined | VNull => false
  | VBool b => b
  | VNumber (S754_zero _) | VNumber S754_nan => false
  | VNumber _ => true
  | VBigInt z => negb (Z.eqb z 0)
  | VString s => negb (String.eqb s "")
  | VSymbol _ | VRef _ => true
  end.

(* ===================================================================== *)
(** ** Objects and the heap *)
(* ===================================================================== *)

(** The two kinds of exception this program can raise: [new Error(msg)]
    in the classes, and the [TypeError] of the runtime (a property read
    on [undefined] or [null], a call of something that is no function). *)
Inductive error_kind : Type := Error | TypeError.

(** What an address can hold.  An instance of one of the four classes
    stores its [readonly] payload field; [OptionNone] has no field. *)
Inductive object : Type :=
| OptionSome (value : value)
| OptionNone
| ResultOk (value : value)
| ResultErr (error : value)
| ErrorObject (kind : error_kind) (message : string)
| PlainObject (props : list (string * value)).

(** One recorded call of a supplied function, with its arguments. *)
Inductive event : Type := Call (args : list value).

Record state : Type := mkState {
  heap : gmap loc object;
  trace : list event
}.

Definition empty_state : state := mkState ∅ [].

(** How a piece of code ends: normally with a result, or by [throw]. *)
Inductive completion (A : Type) : Type :=
| Normal (a : A)
| Thrown (exn : value).
Arguments Normal {A} a.
Arguments Thrown {A} exn.

Definition M (A : Type) : Type := state → completion A * state.

#[export] Instance M_ret : MRet M := λ A a s, (Normal a, s).
#[export] Instance M_bind : MBind M := λ A B f m s,
  match m s with
  | (Normal a, s') => f a s'
  | (Thrown exn, s') => (Thrown exn, s')
  end.

Definition throw {A} (exn : value) : M A := λ s, (Thrown exn, s).

(** [new C(...)]: a fresh address, never used before. *)
Definition next_loc (s : state) : loc := fresh (dom (heap s)).

Definition store (o : object) (s : state) : state :=
  mkState (<[next_loc s := o]> (heap s)) (trace s).

Definition alloc (o : object) : M value := λ s,
  (Normal (VRef (next_loc s)), store o s).

Definition throw_new {A} (k : error_kind) (msg : string) : M A :=
  e ← alloc (ErrorObject k msg); throw e.

(** Calling a supplied function: the call is recorded, then the function
    runs (and may itself throw or change the state). *)
Definition mapper : Type := list value → M value.

Definition invoke (f : mapper) (args : list value) : M value := λ s,
  f args (mkState (heap s) (trace s ++ [Call args])).


(** Reading an address.  Every reference a JavaScript program holds is
    live; an address that holds nothing is treated like [undefined]. *)
Definition deref (l : loc) : M object := λ s,
  match heap s !! l with
  | Some o => (Normal o, s)
  | None => throw_new TypeError "Cannot read properties of undefined" s
  end.

(* ===================================================================== *)
(** ** Properties *)
(* ===================================================================== *)

(** The data and accessor properties that [index.ts] declares or reads.
    (Methods are called, never read as values, and are modelled as
    functions below.) *)
Inductive prop : Type :=
| P_some | P_none | P_value
| P_ok | P_err | P_error | P_valid
| P_unwrap | P_to_option.

Definition prop_name (p : prop) : string :=
  match p with
  | P_some => "some" | P_none => "none" | P_value => "value"
  | P_ok => "ok" | P_err => "err" | P_error => "error" | P_valid => "valid"
  | P_unwrap => "unwrap" | P_to_option => "to_option"
  end.

Fixpoint assoc (k : string) (l : list (string * value)) : option value :=
  match l with
  | [] => None
  | (k', v) :: l' => if String.eqb k k' then Some v else assoc k l'
  end.

(** The own data properties of an object: [readonly value: T] of
    [OptionSome] and [ResultOk], [readonly error: E] of [ResultErr]. *)
Definition own_field (o : object) (p : prop) : option value :=
  match o, p with
  | OptionSome v, P_value => Some v
  | ResultOk v, P_value => Some v
  | ResultErr e, P_error => Some e
  | PlainObject props, _ => assoc (prop_name p) props
  | _, _ => None
  end.

(** [this.value] and [this.error] inside a class body. *)
Definition this_field (this : loc) (p : prop) : M value :=
  o ← deref this; mret (default VUndefined (own_field o p)).

(* ===================================================================== *)
(** ** String conversion *)
(* ===================================================================== *)

(** What the host supplies to [string + x]: the decimal form of a number
    and the conversion of an object (its own [toString]/[valueOf], user
    code that may throw or have effects). *)
Class Runtime : Type := {
  Number_toString : spec_float → string;
  Object_toString : loc → M string
}.

Definition newline : string := String (ascii_of_nat 10) EmptyString.

Definition to_string `{Runtime} (v : value) : M string :=
  match v with
  | VUndefined => mret "undefined"
  | VNull => mret "null"
  | VBool true => mret "true"
  | VBool false => mret "false"
  | VNumber n => mret (Number_toString n)
  | VBigInt z => mret (pretty z)
  | VString s => mret s
  | VSymbol _ => throw_new TypeError "Cannot convert a Symbol value to a string"
  | VRef l => Object_toString l
  end.

(* ===================================================================== *)
(** ** The classes *)
(* ===================================================================== *)

Section Classes.
Context `{Runtime}.

(** *** Getters (accessor properties) *)

Definition OptionSome_some (this : loc) : M value := mret (VBool true).
Definition OptionSome_none (this : loc) : M value := mret (VBool false).
Definition OptionSome_unwrap (this : loc) : M value := this_field this P_value.

Definition OptionNone_some (this : loc) : M value := mret (VBool false).
Definition OptionNone_none (this : loc) : M value := mret (VBool true).
Definition OptionNone_unwrap (this : loc) : M value :=
  throw_new Error "Tried to unwrap None".

Definition ResultOk_ok (this : loc) : M value := mret (VBool true).
Definition ResultOk_err (this : loc) : M value := mret (VBool false).
Definition ResultOk_unwrap (this : loc) : M value := this_field this P_value.
Definition ResultOk_to_option (this : loc) : M value :=
  v ← this_field this P_value; alloc (OptionSome v).

Definition ResultErr_valid (this : loc) : M value := mret (VBool false).
Definition ResultErr_ok (this : loc) : M value := mret (VBool false).
Definition ResultErr_err (this : loc) : M value := mret (VBool true).
Definition ResultErr_unwrap (this : loc) : M value :=
  e ← this_field this P_error;
  str ← to_string e;
  throw_new Error ("Tried to unwrap Error" ++ newline ++ "Original " ++ str).
Definition ResultErr_to_option (this : loc) : M value := alloc OptionNone.

(** The getters each class declares. *)
Definition getter (o : object) (p : prop) : option (loc → M value) :=
  match o, p with
  | OptionSome _, P_some => Some OptionSome_some
  | OptionSome _, P_none => Some OptionSome_none
  | OptionSome _, P_unwrap => Some OptionSome_unwrap
  | OptionNone, P_some => Some OptionNone_some
  | OptionNone, P_none => Some OptionNone_none
  | OptionNone, P_unwrap => Some OptionNone_unwrap
  | ResultOk _, P_ok => Some ResultOk_ok
  | ResultOk _, P_err => Some ResultOk_err
  | ResultOk _, P_unwrap => Some ResultOk_unwrap
  | ResultOk _, P_to_option => Some ResultOk_to_option
  | ResultErr _, P_valid => Some ResultErr_valid
  | ResultErr _, P_ok => Some ResultErr_ok
  | ResultErr _, P_err => Some ResultErr_err
  | ResultErr _, P_unwrap => Some ResultErr_unwrap
  | ResultErr _, P_to_option => Some ResultErr_to_option
  | _, _ => None
  end.

(** [x.p]: an own field, else a getter of the class, else [undefined];
    reading a property of [undefined] or [null] is a [TypeError]. *)
Definition get (x : value) (p : prop) : M value :=
  match x with
  | VUndefined | VNull =>
      throw_new TypeError "Cannot read properties of undefined"
  | VRef l =>
      o ← deref l;
      match own_field o p with
      | Some v => mret v
      | None =>
          match getter o p with
          | Some g => g l
          | None => mret VUndefined
          end
      end
  | _ => mret VUndefined
  end.

(** [a && b]: [b] is evaluated only when [a] is truthy, else [a] itself
    is the result. *)
Definition js_and (a : M value) (b : M value) : M value :=
  x ← a; if truthy x then b else mret x.

(** *** [class OptionSome<T>] *)

Definition OptionSome_expect (this : loc) : M value := this_field this P_value.
Definition OptionSome_unwrap_or (this : loc) : M value := this_field this P_value.
Definition OptionSome_and_then (this : loc) (mapper : mapper) : M value :=
  v ← this_field this P_value; invoke mapper [v].
Definition OptionSome_or_else (this : loc) : M value := mret (VRef this).
Definition OptionSome_map (this : loc) (mapper : mapper) : M value :=
  v ← this_field this P_value; r ← invoke mapper [v]; alloc (OptionSome r).
Definition OptionSome_compare (this : loc) (other : value) : M value :=
  js_and (get other P_some)
         (a ← this_field this P_value; b ← get other P_value;
          mret (VBool (strict_equals a b))).
Definition OptionSome_to_result (this : loc) : M value :=
  v ← this_field this P_value; alloc (ResultOk v).

(** *** [class OptionNone] *)

Definition OptionNone_expect (this : loc) (msg : string) : M value :=
  throw_new Error msg.
Definition OptionNone_unwrap_or (this : loc) (val : value) : M value := mret val.
Definition OptionNone_and_then (this : loc) : M value := mret (VRef this).
Definition OptionNone_or_else (this : loc) (mapper : mapper) : M value :=
  invoke mapper [].
Definition OptionNone_map (this : loc) : M value := mret (VRef this).
Definition OptionNone_compare (this : loc) (other : value) : M value :=
  get other P_none.
Definition OptionNone_to_result (this : loc) (error : value) : M value :=
  alloc (ResultErr error).

(** *** [class ResultOk<T>] *)

Definition ResultOk_expect (this : loc) : M value := this_field this P_value.
Definition ResultOk_expect_err (this : loc) (msg : string) : M value :=
  throw_new Error msg.
Definition ResultOk_unwrap_or (this : loc) : M value := this_field this P_value.
Definition ResultOk_and_then (this : loc) (mapper : mapper) : M value :=
  v ← this_field this P_value; invoke mapper [v].
Definition ResultOk_or_else (this : loc) : M value := mret (VRef this).
Definition ResultOk_map (this : loc) (func : mapper) : M value :=
  v ← this_field this P_value; r ← invoke func [v]; alloc (ResultOk r).
Definition ResultOk_map_err (this : loc) : M value := mret (VRef this).
Definition ResultOk_compare (this : loc) (other : value) : M value :=
  js_and (get other P_ok)
         (a ← this_field this P_value; b ← get other P_value;
          mret (VBool (strict_equals a b))).

(** *** [class ResultErr<E>] *)

Definition ResultErr_expect (this : loc) (msg : string) : M value :=
  e ← this_field this P_error;
  str ← to_string e;
  throw_new Error (msg ++ newline ++ "Original " ++ str).
Definition ResultErr_expect_err (this : loc) : M value := this_field this P_error.
Definition ResultErr_unwrap_or (this : loc) (val : value) : M value := mret val.
Definition ResultErr_and_then (this : loc) : M value := mret (VRef this).
Definition ResultErr_or_else (this : loc) (mapper : mapper) : M value :=
  e ← this_field this P_error; invoke mapper [e].
Definition ResultErr_map (this : loc) : M value := mret (VRef this).
Definition ResultErr_map_err (this : loc) (mapper : mapper) : M value :=
  e ← this_field this P_error; r ← invoke mapper [e]; alloc (ResultErr r).
Definition ResultErr_compare (this : loc) (other : value) : M value :=
  js_and (get other P_err)
         (a ← this_field this P_error; b ← get other P_error;
          mret (VBool (strict_equals a b))).

(** *** The exported constructors *)

Definition ok (v : value) : M value := alloc (ResultOk v).
Definition err (error : value) : M value := alloc (ResultErr error).
Definition some (v : value) : M value := alloc (OptionSome v).
Definition none : M value := alloc OptionNone.

(* ===================================================================== *)
(** ** Method calls *)
(* ===================================================================== *)

(** [x.m(...)] finds [m] through the class of the object [x] refers to.
    A method takes the parameters its class declares and ignores the
    other arguments of the call; a receiver without the method is a
    [TypeError]. *)
Definition receiver (x : value) : M (loc * object) :=
  match x with
  | VRef l => o ← deref l; mret (l, o)
  | _ => throw_new TypeError "not a function"
  end.

Definition not_a_function : M value := throw_new TypeError "not a function".

Definition call_expect (x : value) (msg : string) : M value :=
  '(this, o) ← receiver x;
  match o with
  | OptionSome _ => OptionSome_expect this
  | OptionNone => OptionNone_expect this msg
  | ResultOk _ => ResultOk_expect this
  | ResultErr _ => ResultErr_expect this msg
  | _ => not_a_function
  end.

Definition call_expect_err (x : value) (msg : string) : M value :=
  '(this, o) ← receiver x;
  match o with
  | ResultOk _ => ResultOk_expect_err this msg
  | ResultErr _ => ResultErr_expect_err this
  | _ => not_a_function
  end.

Definition call_unwrap_or (x : value) (val : value) : M value :=
  '(this, o) ← receiver x;
  match o with
  | OptionSome _ => OptionSome_unwrap_or this
  | OptionNone => OptionNone_unwrap_or this val
  | ResultOk _ => ResultOk_unwrap_or this
  | ResultErr _ => ResultErr_unwrap_or this val
  | _ => not_a_function
  end.

Definition call_and_then (x : value) (mapper : mapper) : M value :=
  '(this, o) ← receiver x;
  match o with
  | OptionSome _ => OptionSome_and_then this mapper
  | OptionNone => OptionNone_and_then this
  | ResultOk _ => ResultOk_and_then this mapper
  | ResultErr _ => ResultErr_and_then this
  | _ => not_a_function
  end.

Definition call_or_else (x : value) (mapper : mapper) : M value :=
  '(this, o) ← receiver x;
  match o with
  | OptionSome _ => OptionSome_or_else this
  | OptionNone => OptionNone_or_else this mapper
  | ResultOk _ => ResultOk_or_else this
  | ResultErr _ => ResultErr_or_else this mapper
  | _ => not_a_function
  end.

Definition call_map (x : value) (mapper : mapper) : M value :=
  '(this, o) ← receiver x;
  match o with
  | OptionSome _ => OptionSome_map this mapper
  | OptionNone => OptionNone_map this
  | ResultOk _ => ResultOk_map this mapper
  | ResultErr _ => ResultErr_map this
  | _ => not_a_function
  end.

Definition call_map_err (x : value) (mapper : mapper) : M value :=
  '(this, o) ← receiver x;
  match o with
  | ResultOk _ => ResultOk_map_err this
  | ResultErr _ => ResultErr_map_err this mapper
  | _ => not_a_function
  end.

Definition call_compare (x : value) (other : value) : M value :=
  '(this, o) ← receiver x;
  match o with
  | OptionSome _ => OptionSome_compare this other
  | OptionNone => OptionNone_compare this other
  | ResultOk _ => ResultOk_compare this other
  | ResultErr _ => ResultErr_compare this other
  | _ => not_a_function
  end.

Definition call_to_result (x : value) (error : value) : M value :=
  '(this, o) ← receiver x;
  match o with
  | OptionSome _ => OptionSome_to_result this
  | OptionNone => OptionNone_to_result this error
  | _ => not_a_function
  end.

End Classes.

(* ===================================================================== *)
(** ** Vocabulary of the specification *)
(* ===================================================================== *)

(** A computation fails when it ends by [throw]; it returns when it ends
    normally. *)
Definition fails {A} (m : M A) (s : state) : Prop :=
  ∃ exn s', m s = (Thrown exn, s').

Definition returns {A} (m : M A) (s : state) : Prop :=
  ∃ a s', m s = (Normal a, s').

(** A supplied function that always returns. *)
Definition total (f : mapper) : Prop := ∀ args s, returns (f args) s.

(** The failure detail: the message of the thrown error object. *)
Definition failure_detail (s : state) (exn : value) : option string :=
  match exn with
  | VRef l =>
      match heap s !! l with
      | Some (ErrorObject _ msg) => Some msg
      | _ => None
      end
  | _ => None
  end.

(** The kind of the thrown error object: [Error] or [TypeError]. *)
Definition failure_kind (s : state) (exn : value) : option error_kind :=
  match exn with
  | VRef l =>
      match heap s !! l with
      | Some (ErrorObject k _) => Some k
      | _ => None
      end
  | _ => None
  end.

(** The two families. *)
Definition is_option (o : object) : bool :=
  match o with OptionSome _ | OptionNone => true | _ => false end.

Definition is_result (o : object) : bool :=
  match o with ResultOk _ | ResultErr _ => true | _ => false end.

(** The four combinators that take a function. *)
Inductive combinator : Type := AndThen | OrElse | Map | MapErr.

Definition call_combinator `{Runtime} (c : combinator) (x : value) (f : mapper)
  : M value :=
  match c with
  | AndThen => call_and_then x f
  | OrElse => call_or_else x f
  | Map => call_map x f
  | MapErr => call_map_err x f
  end.

(** The no-op branches, as the specification lists them: [and_then] and
    [map] on [OptionNone] and on [ResultErr], [map_err] and [or_else] on
    [ResultOk], [or_else] on [OptionSome]. *)
Definition inactive (o : object) (c : combinator) : bool :=
  match o, c with
  | OptionNone, (AndThen | Map) => true
  | ResultErr _, (AndThen | Map) => true
  | ResultOk _, (MapErr | OrElse) => true
  | OptionSome _, OrElse => true
  | _, _ => false
  end.

(** A mapper with a side-effecting assertion: it throws when called. *)
Definition asserting_mapper : mapper := λ _, throw_new Error "must not be called".

(** Two containers of one family. *)
Definition same_family (o1 o2 : object) : bool :=
  is_option o1 && is_option o2 || is_result o1 && is_result o2.

(** The pair of discriminant properties of each family. *)
Definition discriminants (o : object) : option (prop * prop) :=
  match o with
  | OptionSome _ | OptionNone => Some (P_some, P_none)
  | ResultOk _ | ResultErr _ => Some (P_ok, P_err)
  | _ => None
  end.

(** The combinators each family has: [map_err] exists on [ResultOk] and
    [ResultErr] only. *)
Definition supports (o : object) (c : combinator) : bool :=
  match c with
  | MapErr => is_result o
  | _ => is_option o || is_result o
  end.

(** A supplied function that always returns: it wraps its argument. *)
Definition wrapping_mapper : mapper := λ args, some (default VUndefined (head args)).

(** Same variant and strictly equal payloads ([OptionNone] has none). *)
Definition same_variant_equal (o1 o2 : object) : bool :=
  match o1, o2 with
  | OptionSome a, OptionSome b => strict_equals a b
  | OptionNone, OptionNone => true
  | ResultOk a, ResultOk b => strict_equals a b
  | ResultErr a, ResultErr b => strict_equals a b
  | _, _ => false
  end.

(** The two variants of one family, one each. *)
Definition cross_variant (o1 o2 : object) : bool :=
  match o1, o2 with
  | OptionSome _, OptionNone | OptionNone, OptionSome _ => true
  | ResultOk _, ResultErr _ | ResultErr _, ResultOk _ => true
  | _, _ => false
  end.

(** The part of a failure detail that precedes a known suffix. *)
Definition recover_message (suffix detail : string) : string :=
  substring 0 (String.length detail - String.length suffix) detail.

(** [some(v).to_result(e).to_option.compare(some(v))] *)
Definition some_round_trip `{Runtime} (v e : value) : M value :=
  x ← some v;
  r ← call_to_result x e;
  o ← get r P_to_option;
  y ← some v;
  call_compare o y.

(** [none().to_result(e)] *)
Definition none_to_result `{Runtime} (e : value) : M value :=
  x ← none; call_to_result x e.

(** [ok(v).to_option.compare(some(v))] *)
Definition ok_to_option_compare `{Runtime} (v : value) : M value :=
  r ← ok v;
  o ← get r P_to_option;
  y ← some v;
  call_compare o y.

(** [err(e).to_option.none] *)
Definition err_to_option_none `{Runtime} (e : value) : M value :=
  r ← err e;
  o ← get r P_to_option;
  get o P_none.

(** *** Calls on the active variant, pipelines, frames *)

(** The arguments a combinator passes to the supplied function on its
    active variant: the payload for [and_then] on [OptionSome] and
    [ResultOk] and for [or_else] on [ResultErr], nothing for [or_else]
    on [OptionNone]. *)
Definition active_call (o : object) (c : combinator) : option (list value) :=
  match o, c with
  | OptionSome v, AndThen => Some [v]
  | ResultOk v, AndThen => Some [v]
  | OptionNone, OrElse => Some []
  | ResultErr e, OrElse => Some [e]
  | _, _ => None
  end.

(** The state in which a supplied function starts: the call recorded. *)
Definition called (args : list value) (s : state) : state :=
  mkState (heap s) (trace s ++ [Call args]).

(** [x.c1(f1).c2(f2)...]: a chain of combinator calls, each on the
    result of the one before. *)
Fixpoint call_pipeline `{Runtime} (steps : list (combinator * mapper)) (x : value)
  : M value :=
  match steps with
  | [] => mret x
  | (c, f) :: rest => y ← call_combinator c x f; call_pipeline rest y
  end.

(** A function without effects, [v => h(v)]. *)
Definition pure_mapper (h : value → value) : mapper :=
  λ args, mret (h (default VUndefined (head args))).

(** Every object of [s] is still there, as it was, in [s']. *)
Definition preserves (s s' : state) : Prop :=
  ∀ l o, heap s !! l = Some o → heap s' !! l = Some o.

(** A computation that neither removes nor overwrites an object. *)
Definition frame_preserving {A} (m : M A) : Prop :=
  ∀ s c s', m s = (c, s') → preserves s s'.

(** [x.to_option.to_result(e)] *)
Definition result_round_trip `{Runtime} (x e : value) : M value :=
  o ← get x P_to_option; call_to_result o e.

(** [x.to_option] read twice. *)
Definition to_option_twice `{Runtime} (x : value) : M (value * value) :=
  a ← get x P_to_option; b ← get x P_to_option; mret (a, b).

(** [none()] called twice. *)
Definition none_twice : M (value * value) :=
  a ← none; b ← none; mret (a, b).

(** The combinator that maps the payload of each variant that has one:
    [map] for [OptionSome] and [ResultOk], [map_err] for [ResultErr]. *)
Definition mapping (o : object) : option (combinator * value * (value → object)) :=
  match o with
  | OptionSome v => Some (Map, v, OptionSome)
  | ResultOk v => Some (Map, v, ResultOk)
  | ResultErr e => Some (MapErr, e, ResultErr)
  | _ => None
  end.

(** The arguments with which a combinator calls the supplied function,
    if it calls it at all: the payload on the variant the combinator
    acts on, nothing for [or_else] on [OptionNone]. *)
Definition call_args (o : object) (c : combinator) : option (list value) :=
  match o, c with
  | OptionSome v, (AndThen | Map) => Some [v]
  | ResultOk v, (AndThen | Map) => Some [v]
  | OptionNone, OrElse => Some []
  | ResultErr e, (OrElse | MapErr) => Some [e]
  | _, _ => None
  end.

(** A supplied function that calls no supplied function itself: it
    leaves the record of calls as it finds it. *)
Definition trace_neutral (f : mapper) : Prop :=
  ∀ args s c s', f args s = (c, s') → trace s' = trace s.

(** [x.to_result(e).expect(m)], [x.to_result(e).expect_err(m)] *)
Definition to_result_expect `{Runtime} (x e : value) (m : string) : M value :=
  r ← call_to_result x e; call_expect r m.

Definition to_result_expect_err (x e : value) (m : string) : M value :=
  r ← call_to_result x e; call_expect_err r m.

(* ===================================================================== *)
(** ** A host for the examples *)
(* ===================================================================== *)

(** The number [z], in binary64. *)
Definition num (z : Z) : value := VNumber (binary_normalize 53 1024 z 0 false).

Definition NaN : value := VNumber S754_nan.

(** Decimal form of the integral numbers (all the examples print); the
    other finite numbers are shown as mantissa and exponent. *)
Definition example_Number_toString (n : spec_float) : string :=
  match n with
  | S754_zero _ => "0"
  | S754_infinity false => "Infinity"
  | S754_infinity true => "-Infinity"
  | S754_nan => "NaN"
  | S754_finite sg m e =>
      let sign := if sg then "-" else "" in
      if (0 <=? e)%Z then sign ++ pretty (Z.pos m * 2 ^ e)%Z
      else if (Z.pos m mod 2 ^ (- e) =? 0)%Z
           then sign ++ pretty (Z.pos m / 2 ^ (- e))%Z
           else sign ++ pretty (Z.pos m) ++ "*2^" ++ pretty e
  end.

(** Objects without a [toString] of their own. *)
Definition example_Object_toString (l : loc) : M string :=
  o ← deref l;
  match o with
  | ErrorObject Error "" => mret "Error"
  | ErrorObject Error msg => mret ("Error: " ++ msg)
  | ErrorObject TypeError "" => mret "TypeError"
  | ErrorObject TypeError msg => mret ("TypeError: " ++ msg)
  | _ => mret "[object Object]"
  end.

Definition example_runtime : Runtime :=
  {| Number_toString := example_Number_toString;
     Object_toString := example_Object_toString |}.

(** The scenarios of the test suite. *)
Section Scenarios.
Let R := example_runtime.
#[local] Existing Instance R.

Definition run {A} (m : M A) : completion A := fst (m empty_state).

Example ok_and_then_ok :
  run (r ← ok (num 42);
       r' ← call_and_then r (λ args, v ← to_string (default VUndefined (head args));
                                      ok (VString v));
       call_expect r' "")
  = Normal (VString "42").
Proof. vm_compute. reflexivity. Qed.

Example ok_and_then_err :
  run (r ← ok (num 42);
       r' ← call_and_then r (λ _, err (VString "42"));
       call_expect_err r' "")
  = Normal (VString "42").
Proof. vm_compute. reflexivity. Qed.

Example err_or_else_ok :
  run (r ← err (num 42);
       r' ← call_or_else r (λ args, v ← to_string (default VUndefined (head args));
                                     ok (VString v));
       call_expect r' "")
  = Normal (VString "42").
Proof. vm_compute. reflexivity. Qed.

Example none_map_same_instance :
  run (x ← none; y ← call_map x asserting_mapper; mret (strict_equals x y))
  = Normal true.
Proof. vm_compute. reflexivity. Qed.

Example compare_unequal_some :
  run (a ← some (num 42); b ← some (num 43); call_compare a b)
  = Normal (VBool false).
Proof. vm_compute. reflexivity. Qed.

Example err_expect_message :
  (let '(c, s) := (r ← err (num 42); call_expect r "YOYO") empty_state in
   match c with
   | Thrown exn => failure_detail s exn
   | Normal _ => None
   end)
  = Some ("YOYO" ++ newline ++ "Original 42").
Proof. vm_compute. reflexivity. Qed.

Example none_to_result_err :
  run (x ← none; r ← call_to_result x (VString "YOYO"); get r P_err)
  = Normal (VBool true).
Proof. vm_compute. reflexivity. Qed.

End Scenarios.

(* ===================================================================== *)
(** ** Running the monad *)
(* ===================================================================== *)

Lemma bind_run {A B} (m : M A) (k : A → M B) (s : state) :
  (m ≫= k) s =
  match m s with
  | (Normal a, s') => k a s'
  | (Thrown exn, s') => (Thrown exn, s')
  end.
Proof. reflexivity. Qed.

Lemma bind_normal {A B} (m : M A) (k : A → M B) (s s' : state) (a : A) :
  m s = (Normal a, s') → (m ≫= k) s = k a s'.
Proof. intros Hm. rewrite bind_run, Hm. reflexivity. Qed.

Lemma bind_thrown {A B} (m : M A) (k : A → M B) (s s' : state) (exn : value) :
  m s = (Thrown exn, s') → (m ≫= k) s = (Thrown exn, s').
Proof. intros Hm. rewrite bind_run, Hm. reflexivity. Qed.

Lemma ret_run {A} (a : A) (s : state) : (mret a : M A) s = (Normal a, s).
Proof. reflexivity. Qed.

(** *** The heap under allocation *)

Lemma next_loc_fresh (s : state) : heap s !! next_loc s = None.
Proof.
  unfold next_loc. apply not_elem_of_dom. apply is_fresh.
Qed.

Lemma store_new (o : object) (s : state) :
  heap (store o s) !! next_loc s = Some o.
Proof. unfold store. simpl. apply lookup_insert_eq. Qed.

Lemma store_old (o o' : object) (s : state) (l : loc) :
  heap s !! l = Some o' → heap (store o s) !! l = Some o'.
Proof.
  intros Hl. unfold store. simpl. rewrite lookup_insert_ne; [exact Hl|].
  intros Heq. rewrite <- Heq, next_loc_fresh in Hl. discriminate.
Qed.

Lemma store_trace (o : object) (s : state) : trace (store o s) = trace s.
Proof. reflexivity. Qed.

Lemma alloc_run (o : object) (s : state) :
  alloc o s = (Normal (VRef (next_loc s)), store o s).
Proof. reflexivity. Qed.

Lemma throw_new_run {A} (k : error_kind) (msg : string) (s : state) :
  @throw_new A k msg s = (Thrown (VRef (next_loc s)), store (ErrorObject k msg) s).
Proof. reflexivity. Qed.

Lemma deref_run (s : state) (l : loc) (o : object) :
  heap s !! l = Some o → deref l s = (Normal o, s).
Proof. intros Hl. unfold deref. rewrite Hl. reflexivity. Qed.

Lemma this_field_run (s : state) (l : loc) (o : object) (p : prop) :
  heap s !! l = Some o →
  this_field l p s = (Normal (default VUndefined (own_field o p)), s).
Proof.
  intros Hl. unfold this_field. rewrite (bind_normal _ _ _ _ _ (deref_run _ _ _ Hl)).
  reflexivity.
Qed.

Lemma receiver_run (s : state) (l : loc) (o : object) :
  heap s !! l = Some o → receiver (VRef l) s = (Normal (l, o), s).
Proof.
  intros Hl. unfold receiver. rewrite (bind_normal _ _ _ _ _ (deref_run _ _ _ Hl)).
  reflexivity.
Qed.

#[global] Arguments deref : simpl never.
#[global] Arguments this_field : simpl never.
#[global] Arguments receiver : simpl never.
#[global] Arguments get : simpl never.
#[global] Arguments to_string : simpl never.

Section Facts.
Context `{Runtime}.

Lemma get_run (s : state) (l : loc) (o : object) (p : prop) :
  heap s !! l = Some o →
  get (VRef l) p s =
  match own_field o p with
  | Some v => (Normal v, s)
  | None =>
      match getter o p with
      | Some g => g l s
      | None => (Normal VUndefined, s)
      end
  end.
Proof.
  intros Hl. unfold get. rewrite (bind_normal _ _ _ _ _ (deref_run _ _ _ Hl)).
  destruct (own_field o p); [reflexivity|].
  destruct (getter o p); reflexivity.
Qed.

(** A method call on a live receiver runs the method of its class. *)
Lemma call_run {A} (s : state) (l : loc) (o : object) (k : loc * object → M A) :
  heap s !! l = Some o → (receiver (VRef l) ≫= k) s = k (l, o) s.
Proof. intros Hl. apply bind_normal, receiver_run, Hl. Qed.

End Facts.

(** On the active variant the supplied function is called, once, with
    the payload ([or_else] on [OptionNone] calls it without argument):
    the call is recorded and the result of the function is the result. *)
Lemma active_combinator_invokes `{Runtime} (s : state) (l : loc) (v : value)
    (f : mapper) :
  let called args := f args (mkState (heap s) (trace s ++ [Call args])) in
  (heap s !! l = Some (OptionSome v) → call_and_then (VRef l) f s = called [v]) ∧
  (heap s !! l = Some (ResultOk v) → call_and_then (VRef l) f s = called [v]) ∧
  (heap s !! l = Some OptionNone → call_or_else (VRef l) f s = called []) ∧
  (heap s !! l = Some (ResultErr v) → call_or_else (VRef l) f s = called [v]).
Proof.
  intros called. repeat split; intros Hl;
    unfold call_and_then, call_or_else; rewrite (call_run _ _ _ _ Hl);
    unfold OptionSome_and_then, ResultOk_and_then, OptionNone_or_else,
           ResultErr_or_else;
    try rewrite (bind_normal _ _ _ _ _ (this_field_run _ _ _ _ Hl));
    reflexivity.
Qed.

(* ===================================================================== *)
(** ** C1: the no-op branches *)
(* ===================================================================== *)

(** C1.  A combinator called on its inactive variant ([and_then] or
    [map] on [OptionNone] or [ResultErr], [map_err] or [or_else] on
    [ResultOk], [or_else] on [OptionSome]) returns the receiver itself,
    the same reference, and leaves the state as it was, whatever the
    supplied function is: no call is recorded in the trace and no effect
    of the function (not even a throw) is observed, so the function was
    not invoked. *)
Theorem inactive_combinator_returns_this `{Runtime}
    (s : state) (l : loc) (o : object) (c : combinator) (f : mapper) :
  heap s !! l = Some o →
  inactive o c = true →
  call_combinator c (VRef l) f s = (Normal (VRef l), s).
Proof.
  intros Hl Hin.
  destruct c; simpl;
    [unfold call_and_then | unfold call_or_else | unfold call_map | unfold call_map_err];
    rewrite (call_run _ _ _ _ Hl); destruct o; try discriminate Hin; reflexivity.
Qed.

Lemma inactive_combinator_returns_this_witness :
  let s := snd (none empty_state) in
  heap s !! 1%positive = Some OptionNone ∧
  @call_combinator example_runtime AndThen (VRef 1) asserting_mapper s
  = (Normal (VRef 1), s).
Proof.
  split; [vm_compute; reflexivity|].
  apply (@inactive_combinator_returns_this example_runtime _ _ OptionNone);
    vm_compute; reflexivity.
Defined.

(* ===================================================================== *)
(** ** Strict equality *)
(* ===================================================================== *)

Lemma SFeqb_refl (n : spec_float) : n ≠ S754_nan → SFeqb n n = true.
Proof.
  intros Hn. unfold SFeqb, SFcompare.
  destruct n as [sg|sg| |sg m e]; try congruence; destruct sg; try reflexivity;
    rewrite Z.compare_refl;
    change (PosDef.Pos.compare_cont Eq m m) with (Pos.compare m m);
    rewrite Pos.compare_refl; reflexivity.
Qed.

Lemma SFeqb_nan (n : spec_float) : SFeqb S754_nan n = false.
Proof. reflexivity. Qed.

Lemma SFeqb_true_sym (x y : spec_float) : SFeqb x y = true → SFeqb y x = true.
Proof.
  unfold SFeqb, SFcompare.
  destruct x as [sx|sx| |sx mx ex], y as [sy|sy| |sy my ey];
    try discriminate; try reflexivity;
    destruct sx, sy; try discriminate; try reflexivity;
    change (PosDef.Pos.compare_cont Eq mx my) with (Pos.compare mx my);
    change (PosDef.Pos.compare_cont Eq my mx) with (Pos.compare my mx);
    destruct (Z.compare_spec ex ey) as [->| |]; try discriminate;
    destruct (Pos.compare_spec mx my) as [->| |]; try discriminate;
    rewrite Z.compare_refl, Pos.compare_refl; reflexivity.
Qed.

(** [v === v] holds for every value but [NaN]. *)
Lemma strict_equals_refl (v : value) : v ≠ NaN → strict_equals v v = true.
Proof.
  intros Hv. destruct v; simpl; try reflexivity.
  - apply Bool.eqb_reflx.
  - apply SFeqb_refl. intros ->. apply Hv. reflexivity.
  - apply Z.eqb_refl.
  - apply String.eqb_refl.
  - apply Pos.eqb_refl.
  - apply Pos.eqb_refl.
Qed.

Lemma strict_equals_NaN (v : value) : strict_equals NaN v = false.
Proof. destruct v; reflexivity. Qed.

Lemma strict_equals_true_sym (a b : value) :
  strict_equals a b = true → strict_equals b a = true.
Proof.
  destruct a, b; simpl; try discriminate; try reflexivity.
  - rewrite Bool.eqb_true_iff. intros ->. apply Bool.eqb_reflx.
  - apply SFeqb_true_sym.
  - rewrite Z.eqb_sym. trivial.
  - rewrite String.eqb_sym. trivial.
  - rewrite Pos.eqb_sym. trivial.
  - rewrite Pos.eqb_sym. trivial.
Qed.

Lemma strict_equals_sym (a b : value) : strict_equals a b = strict_equals b a.
Proof.
  destruct (strict_equals a b) eqn:Hab, (strict_equals b a) eqn:Hba;
    try reflexivity.
  - apply strict_equals_true_sym in Hab. congruence.
  - apply strict_equals_true_sym in Hba. congruence.
Qed.

Lemma strict_equals_ref (p q : loc) :
  p ≠ q → strict_equals (VRef p) (VRef q) = false.
Proof. intros Hpq. simpl. apply Pos.eqb_neq, Hpq. Qed.

Lemma same_variant_equal_sym (o1 o2 : object) :
  same_variant_equal o1 o2 = true → same_variant_equal o2 o1 = true.
Proof.
  destruct o1, o2; simpl; try discriminate; try reflexivity;
    apply strict_equals_true_sym.
Qed.

Lemma cross_variant_sym (o1 o2 : object) :
  cross_variant o1 o2 = cross_variant o2 o1.
Proof. destruct o1, o2; reflexivity. Qed.

Lemma cross_variant_not_equal (o1 o2 : object) :
  cross_variant o1 o2 = true → same_variant_equal o1 o2 = false.
Proof. destruct o1, o2; simpl; try discriminate; reflexivity. Qed.

(* ===================================================================== *)
(** ** What [compare] computes *)
(* ===================================================================== *)

Section Compare.
Context `{Runtime}.

(** On two live containers of one family, [compare] reads the
    discriminant of [other], then the two payloads, and answers with
    [===] on them; the state is untouched. *)
Lemma compare_run (s : state) (l1 l2 : loc) (o1 o2 : object) :
  heap s !! l1 = Some o1 →
  heap s !! l2 = Some o2 →
  same_family o1 o2 = true →
  call_compare (VRef l1) (VRef l2) s
  = (Normal (VBool (same_variant_equal o1 o2)), s).
Proof.
  intros H1 H2 Hfam. unfold call_compare. rewrite (call_run _ _ _ _ H1).
  destruct o1, o2; try discriminate Hfam;
    unfold OptionSome_compare, OptionNone_compare, ResultOk_compare,
           ResultErr_compare, js_and;
    repeat first
      [ rewrite bind_run
      | rewrite (get_run _ _ _ _ H2)
      | rewrite (this_field_run _ _ _ _ H1)
      | progress simpl ];
    reflexivity.
Qed.

(** [compare] is symmetric on every pair of live containers of one
    family. *)
Lemma compare_symmetric (s : state) (l1 l2 : loc) (o1 o2 : object) :
  heap s !! l1 = Some o1 →
  heap s !! l2 = Some o2 →
  same_family o1 o2 = true →
  call_compare (VRef l1) (VRef l2) s = call_compare (VRef l2) (VRef l1) s.
Proof.
  intros H1 H2 Hfam.
  assert (Hfam' : same_family o2 o1 = true)
    by (destruct o1, o2; try discriminate Hfam; reflexivity).
  rewrite (compare_run _ _ _ _ _ H1 H2 Hfam), (compare_run _ _ _ _ _ H2 H1 Hfam').
  destruct o1, o2; try discriminate Hfam; simpl; try reflexivity;
    rewrite strict_equals_sym; reflexivity.
Qed.

End Compare.

(* ===================================================================== *)
(** ** C5: [compare] on equal and on cross-variant pairs *)
(* ===================================================================== *)

(** C5, as stated, fails: a container holding [NaN] does not compare
    equal to itself, [x = some(NaN); x.compare(x)] is [false]. *)
Lemma compare_not_reflexive_on_NaN :
  fst ((x ← some NaN; @call_compare example_runtime x x) empty_state)
  = Normal (VBool false).
Proof. vm_compute. reflexivity. Qed.

(** C5 (amended).  For two live containers of the same variant whose
    payloads are strictly equal ([===]; two [OptionNone] have no payload
    to compare), [compare] answers [true] in both directions, and in
    particular on a container and itself; for a cross-variant pair of
    one family it answers [false] in both directions, whatever the
    payloads. *)
Theorem compare_equal_pairs_and_cross_variant `{Runtime}
    (s : state) (l1 l2 : loc) (o1 o2 : object) :
  heap s !! l1 = Some o1 →
  heap s !! l2 = Some o2 →
  (same_variant_equal o1 o2 = true →
     call_compare (VRef l1) (VRef l2) s = (Normal (VBool true), s) ∧
     call_compare (VRef l2) (VRef l1) s = (Normal (VBool true), s))
  ∧
  (cross_variant o1 o2 = true →
     call_compare (VRef l1) (VRef l2) s = (Normal (VBool false), s) ∧
     call_compare (VRef l2) (VRef l1) s = (Normal (VBool false), s)).
Proof.
  intros H1 H2. split.
  - intros Heq.
    assert (Hfam : same_family o1 o2 = true)
      by (destruct o1, o2; try discriminate Heq; reflexivity).
    assert (Hfam' : same_family o2 o1 = true)
      by (destruct o1, o2; try discriminate Heq; reflexivity).
    rewrite (compare_run _ _ _ _ _ H1 H2 Hfam), (compare_run _ _ _ _ _ H2 H1 Hfam').
    rewrite Heq, (same_variant_equal_sym _ _ Heq). split; reflexivity.
  - intros Hx.
    assert (Hfam : same_family o1 o2 = true)
      by (destruct o1, o2; try discriminate Hx; reflexivity).
    assert (Hfam' : same_family o2 o1 = true)
      by (destruct o1, o2; try discriminate Hx; reflexivity).
    rewrite (compare_run _ _ _ _ _ H1 H2 Hfam), (compare_run _ _ _ _ _ H2 H1 Hfam').
    rewrite (cross_variant_not_equal _ _ Hx).
    rewrite cross_variant_sym in Hx.
    rewrite (cross_variant_not_equal _ _ Hx). split; reflexivity.
Qed.

Lemma compare_equal_pairs_and_cross_variant_witness :
  let s := snd ((a ← ok (num 42); b ← ok (num 42); err (num 42)) empty_state) in
  (heap s !! 1%positive = Some (ResultOk (num 42)) ∧
   heap s !! 2%positive = Some (ResultOk (num 42)) ∧
   heap s !! 3%positive = Some (ResultErr (num 42))) ∧
  (@call_compare example_runtime (VRef 1) (VRef 2) s = (Normal (VBool true), s) ∧
   @call_compare example_runtime (VRef 2) (VRef 1) s = (Normal (VBool true), s)) ∧
  (@call_compare example_runtime (VRef 1) (VRef 3) s = (Normal (VBool false), s) ∧
   @call_compare example_runtime (VRef 3) (VRef 1) s = (Normal (VBool false), s)).
Proof.
  split; [vm_compute; repeat split; reflexivity|].
  split.
  - apply (@compare_equal_pairs_and_cross_variant example_runtime _ 1%positive 2%positive
             (ResultOk (num 42)) (ResultOk (num 42)));
      vm_compute; reflexivity.
  - apply (@compare_equal_pairs_and_cross_variant example_runtime _ 1%positive 3%positive
             (ResultOk (num 42)) (ResultErr (num 42)));
      vm_compute; reflexivity.
Defined.

(* ===================================================================== *)
(** ** C9: payloads are compared by identity *)
(* ===================================================================== *)

(** C9.  Inside [compare] the payloads are compared with [===] and with
    nothing else: for two [OptionSome], two [ResultOk] or two
    [ResultErr] the answer is [strict_equals] of the two payload values
    and the state is the one before the call (nothing is called, the
    trace is unchanged).  So two containers whose payloads are distinct
    objects compare [false] even when the two objects have the very same
    content [o], whatever that content is. *)
Theorem compare_is_strict_identity `{Runtime}
    (s : state) (wrap : value → object) (l1 l2 : loc) (a b : value) :
  wrap = OptionSome ∨ wrap = ResultOk ∨ wrap = ResultErr →
  heap s !! l1 = Some (wrap a) →
  heap s !! l2 = Some (wrap b) →
  call_compare (VRef l1) (VRef l2) s = (Normal (VBool (strict_equals a b)), s)
  ∧
  (∀ (p q : loc) (o : object),
     a = VRef p → b = VRef q → p ≠ q →
     heap s !! p = Some o → heap s !! q = Some o →
     call_compare (VRef l1) (VRef l2) s = (Normal (VBool false), s)).
Proof.
  intros Hwrap H1 H2.
  assert (Hrun : call_compare (VRef l1) (VRef l2) s
                 = (Normal (VBool (strict_equals a b)), s)).
  { destruct Hwrap as [-> | [-> | ->]];
      rewrite (compare_run _ _ _ _ _ H1 H2 eq_refl); reflexivity. }
  split; [exact Hrun|].
  intros p q o -> -> Hpq _ _. rewrite Hrun, (strict_equals_ref _ _ Hpq). reflexivity.
Qed.

Lemma compare_is_strict_identity_witness :
  let point := PlainObject [("x", num 1); ("y", num 2)] in
  let s := snd ((p ← alloc point; q ← alloc point; a ← some p; some q) empty_state) in
  (heap s !! 1%positive = Some point ∧ heap s !! 2%positive = Some point) ∧
  @call_compare example_runtime (VRef 3) (VRef 4) s = (Normal (VBool false), s).
Proof.
  split; [vm_compute; split; reflexivity|].
  refine (proj2 (@compare_is_strict_identity example_runtime _ OptionSome
                   3%positive 4%positive (VRef 1) (VRef 2) _ _ _)
                1%positive 2%positive
                (PlainObject [("x", num 1); ("y", num 2)]) _ _ _ _ _);
    try (vm_compute; reflexivity).
  - left. reflexivity.
  - discriminate.
Defined.

(* ===================================================================== *)
(** ** C3: the discriminants *)
(* ===================================================================== *)

(** The constructors and the operations that build a new container
    build one of the expected family, so every container a program ever
    holds is covered by the theorem below. *)
Lemma constructors_build_containers (s : state) (v : value) :
  (heap (snd (some v s)) !! next_loc s = Some (OptionSome v) ∧
   heap (snd (none s)) !! next_loc s = Some OptionNone) ∧
  (heap (snd (ok v s)) !! next_loc s = Some (ResultOk v) ∧
   heap (snd (err v s)) !! next_loc s = Some (ResultErr v)).
Proof. repeat split; apply store_new. Qed.

(** C3.  On every live instance of either family, in every state, both
    discriminant getters return booleans and exactly one of them is
    [true]: [some]/[none] on an [OptionSome] or [OptionNone], [ok]/[err]
    on a [ResultOk] or [ResultErr].  Reading them changes nothing. *)
Theorem discriminants_exactly_one `{Runtime}
    (s : state) (l : loc) (o : object) (p q : prop) :
  heap s !! l = Some o →
  discriminants o = Some (p, q) →
  ∃ a b : bool,
    get (VRef l) p s = (Normal (VBool a), s) ∧
    get (VRef l) q s = (Normal (VBool b), s) ∧
    xorb a b = true.
Proof.
  intros Hl Hd.
  destruct o; simpl in Hd; try discriminate Hd;
    injection Hd as <- <-; rewrite !(get_run _ _ _ _ Hl); simpl;
    [ exists true, false | exists false, true
    | exists true, false | exists false, true ];
    repeat split; reflexivity.
Qed.

Lemma discriminants_exactly_one_witness :
  let s := snd (err (num 42) empty_state) in
  heap s !! 1%positive = Some (ResultErr (num 42)) ∧
  ∃ a b : bool,
    @get example_runtime (VRef 1) P_ok s = (Normal (VBool a), s) ∧
    @get example_runtime (VRef 1) P_err s = (Normal (VBool b), s) ∧
    xorb a b = true.
Proof.
  split; [vm_compute; reflexivity|].
  apply (@discriminants_exactly_one example_runtime _ 1%positive (ResultErr (num 42)));
    vm_compute; reflexivity.
Defined.

(* ===================================================================== *)
(** ** C10: the getter [valid] *)
(* ===================================================================== *)

(** C10.  [ResultErr] declares a getter [valid], and reading it on any
    live [ResultErr] gives [false]; [ResultOk] has neither a field nor a
    getter of that name, and reading [valid] on a live [ResultOk] gives
    [undefined]. *)
Theorem valid_only_on_ResultErr `{Runtime}
    (s : state) (l : loc) (o : object) :
  heap s !! l = Some o →
  (∀ e, o = ResultErr e →
     getter o P_valid = Some ResultErr_valid ∧
     get (VRef l) P_valid s = (Normal (VBool false), s))
  ∧
  (∀ v, o = ResultOk v →
     own_field o P_valid = None ∧
     getter o P_valid = None ∧
     get (VRef l) P_valid s = (Normal VUndefined, s)).
Proof.
  intros Hl. split.
  - intros e ->. split; [reflexivity|]. rewrite (get_run _ _ _ _ Hl). reflexivity.
  - intros v ->. repeat split. rewrite (get_run _ _ _ _ Hl). reflexivity.
Qed.

Lemma valid_only_on_ResultErr_witness :
  let s := snd ((a ← err (num 42); ok (num 42)) empty_state) in
  (heap s !! 1%positive = Some (ResultErr (num 42)) ∧
   heap s !! 2%positive = Some (ResultOk (num 42))) ∧
  @get example_runtime (VRef 1) P_valid s = (Normal (VBool false), s) ∧
  @get example_runtime (VRef 2) P_valid s = (Normal VUndefined, s).
Proof.
  split; [vm_compute; split; reflexivity|].
  split.
  - refine (proj2 (proj1 (@valid_only_on_ResultErr example_runtime _ 1%positive
                            (ResultErr (num 42)) _) (num 42) eq_refl)).
    vm_compute. reflexivity.
  - refine (proj2 (proj2 (proj2 (@valid_only_on_ResultErr example_runtime _ 2%positive
                            (ResultOk (num 42)) _) (num 42) eq_refl))).
    vm_compute. reflexivity.
Defined.

(* ===================================================================== *)
(** ** C6: asking an [OptionNone] for a value *)
(* ===================================================================== *)

(** C6.  An [OptionNone] holds nothing: on every live [OptionNone], in
    every state, [some] is [false], [none] is [true] and there is no
    [value] field; and each of the two ways the class offers to get at
    a value ends in a failure, the [throw] of a new [Error] object:
    [expect(msg)] throws one whose message is [msg], and [unwrap] one
    whose message is ["Tried to unwrap None"]. *)
Theorem OptionNone_value_access `{Runtime} (s : state) (l : loc) (msg : string) :
  heap s !! l = Some OptionNone →
  (get (VRef l) P_some s = (Normal (VBool false), s) ∧
   get (VRef l) P_none s = (Normal (VBool true), s) ∧
   own_field OptionNone P_value = None)
  ∧
  (∃ exn s',
     call_expect (VRef l) msg s = (Thrown exn, s') ∧
     heap s !! next_loc s = None ∧ exn = VRef (next_loc s) ∧
     heap s' !! next_loc s = Some (ErrorObject Error msg) ∧
     failure_kind s' exn = Some Error ∧
     failure_detail s' exn = Some msg)
  ∧
  (∃ exn s',
     get (VRef l) P_unwrap s = (Thrown exn, s') ∧
     heap s' !! next_loc s = Some (ErrorObject Error "Tried to unwrap None") ∧
     exn = VRef (next_loc s) ∧
     failure_kind s' exn = Some Error ∧
     failure_detail s' exn = Some "Tried to unwrap None").
Proof.
  intros Hl. split; [|split].
  - rewrite !(get_run _ _ _ _ Hl). repeat split.
  - unfold call_expect. rewrite (call_run _ _ _ _ Hl).
    unfold OptionNone_expect. rewrite throw_new_run.
    eexists _, _. split; [reflexivity|].
    split; [apply next_loc_fresh|]. split; [reflexivity|].
    unfold failure_kind, failure_detail. rewrite store_new. repeat split.
  - rewrite (get_run _ _ _ _ Hl). simpl.
    unfold OptionNone_unwrap. rewrite throw_new_run.
    eexists _, _. split; [reflexivity|].
    unfold failure_kind, failure_detail. rewrite store_new. repeat split.
Qed.

Lemma OptionNone_value_access_witness :
  let s := snd (none empty_state) in
  heap s !! 1%positive = Some OptionNone ∧
  (∃ exn s',
     @call_expect example_runtime (VRef 1) "YOYO" s = (Thrown exn, s') ∧
     failure_kind s' exn = Some Error ∧
     failure_detail s' exn = Some "YOYO") ∧
  (∃ exn s',
     @get example_runtime (VRef 1) P_unwrap s = (Thrown exn, s') ∧
     failure_kind s' exn = Some Error ∧
     failure_detail s' exn = Some "Tried to unwrap None").
Proof.
  split; [vm_compute; reflexivity|].
  assert (Hl : heap (snd (none empty_state)) !! 1%positive = Some OptionNone)
    by (vm_compute; reflexivity).
  destruct (@OptionNone_value_access example_runtime _ 1%positive "YOYO" Hl)
    as (_ & (e1 & s1 & R1 & _ & _ & _ & K1 & D1) & (e2 & s2 & R2 & _ & _ & K2 & D2)).
  split.
  - exists e1, s1. repeat split; assumption.
  - exists e2, s2. repeat split; assumption.
Defined.

(* ===================================================================== *)
(** ** C4: [expect] and [unwrap] *)
(* ===================================================================== *)

Lemma length_append (a b : string) :
  String.length (a ++ b) = String.length a + String.length b.
Proof. induction a as [|c a IH]; simpl; [reflexivity | rewrite IH; reflexivity]. Qed.

Lemma substring_prefix (m k : string) :
  substring 0 (String.length m) (m ++ k) = m.
Proof.
  induction m as [|c m IH]; simpl.
  - destruct k; reflexivity.
  - rewrite IH. reflexivity.
Qed.

(** A message followed by a known suffix is found again. *)
Lemma recover_message_append (m k : string) : recover_message k (m ++ k) = m.
Proof.
  unfold recover_message. rewrite length_append.
  replace (String.length m + String.length k - String.length k)
    with (String.length m) by lia.
  apply substring_prefix.
Qed.

Lemma append_empty (m : string) : m ++ "" = m.
Proof.
  induction m as [|c m IH]; [reflexivity|].
  change (String c (m ++ "") = String c m). rewrite IH. reflexivity.
Qed.

Lemma recover_message_whole (m : string) : recover_message "" m = m.
Proof.
  pose proof (recover_message_append m "") as Hm.
  rewrite append_empty in Hm. exact Hm.
Qed.

Section Expect.
Context `{Runtime}.

(** [throw new Error(msg)]: the failure detail is [msg]. *)
Lemma throw_new_detail (msg : string) (s : state) :
  ∃ exn s', @throw_new value Error msg s = (Thrown exn, s') ∧
            failure_detail s' exn = Some msg.
Proof.
  rewrite throw_new_run. eexists _, _. split; [reflexivity|].
  unfold failure_detail. rewrite store_new. reflexivity.
Qed.

(** The two throwing paths of [ResultErr], [expect] with the prefix
    [msg] and [unwrap] with a fixed prefix, share their shape. *)
Lemma ResultErr_throws (pre : string) (s : state) (l : loc) (e : value) :
  heap s !! l = Some (ResultErr e) →
  let m := (e' ← this_field l P_error;
            str ← to_string e';
            throw_new Error (pre ++ newline ++ "Original " ++ str)) : M value in
  fails m s ∧
  (∀ str s1, to_string e s = (Normal str, s1) →
     ∃ exn s', m s = (Thrown exn, s') ∧
               failure_detail s' exn = Some (pre ++ newline ++ "Original " ++ str)) ∧
  (∀ exn s1, to_string e s = (Thrown exn, s1) → m s = (Thrown exn, s1)).
Proof.
  intros Hl m. subst m. unfold fails.
  rewrite (bind_normal _ _ _ _ _ (this_field_run _ _ _ P_error Hl)). simpl.
  split; [|split].
  - rewrite bind_run. destruct (to_string e s) as [[str|exn] s1].
    + rewrite throw_new_run. eauto.
    + eauto.
  - intros str s1 Hstr. rewrite (bind_normal _ _ _ _ _ Hstr). apply throw_new_detail.
  - intros exn s1 Hstr. apply (bind_thrown _ _ _ _ _ Hstr).
Qed.

End Expect.

(** [throw new Error(msg)]: a new [Error] object with that message. *)
Lemma throw_new_Error (msg : string) (s : state) :
  ∃ exn s', @throw_new value Error msg s = (Thrown exn, s') ∧
            failure_kind s' exn = Some Error ∧
            failure_detail s' exn = Some msg.
Proof.
  rewrite throw_new_run. eexists _, _. split; [reflexivity|].
  unfold failure_kind, failure_detail. rewrite store_new. split; reflexivity.
Qed.

(** C4.  The claim is what the documentation of [expect] and [unwrap]
    promises, and [ResultErr] breaks it when the error is a Symbol: in
    every state and on every live [ResultErr] holding a Symbol,
    [expect(m)] ends, for every message [m], with one and the same
    exception and state, so [m] cannot be found again in the failure
    detail, and [unwrap] ends with that exception too.  It is the
    [TypeError] of the string conversion in
    [msg + "\nOriginal " + this.error]; the [new Error(...)] of the
    method is never evaluated, where [OptionNone.expect] and
    [ResultOk.expect_err] throw an [Error] with the message. *)
Theorem ResultErr_expect_loses_the_message_on_a_symbol `{Runtime}
    (s : state) (l : loc) (id : positive) :
  heap s !! l = Some (ResultErr (VSymbol id)) →
  ∃ exn s',
    (∀ m, call_expect (VRef l) m s = (Thrown exn, s')) ∧
    get (VRef l) P_unwrap s = (Thrown exn, s') ∧
    failure_kind s' exn = Some TypeError ∧
    failure_kind s' exn ≠ Some Error.
Proof.
  intros Hl.
  exists (VRef (next_loc s)),
         (store (ErrorObject TypeError "Cannot convert a Symbol value to a string") s).
  split; [|split; [|split]].
  - intros m. unfold call_expect. rewrite (call_run _ _ _ _ Hl).
    unfold ResultErr_expect.
    rewrite (bind_normal _ _ _ _ _ (this_field_run _ _ _ P_error Hl)). reflexivity.
  - rewrite (get_run _ _ _ _ Hl). simpl. unfold ResultErr_unwrap.
    rewrite (bind_normal _ _ _ _ _ (this_field_run _ _ _ P_error Hl)). reflexivity.
  - unfold failure_kind. rewrite store_new. reflexivity.
  - unfold failure_kind. rewrite store_new. discriminate.
Qed.

Lemma ResultErr_expect_loses_the_message_on_a_symbol_witness :
  let s := snd (err (VSymbol 1) empty_state) in
  heap s !! 1%positive = Some (ResultErr (VSymbol 1)) ∧
  ∃ exn s',
    @call_expect example_runtime (VRef 1) "YOYO" s = (Thrown exn, s') ∧
    @call_expect example_runtime (VRef 1) "another message" s = (Thrown exn, s') ∧
    failure_kind s' exn = Some TypeError.
Proof.
  split; [vm_compute; reflexivity|].
  assert (Hl : heap (snd (err (VSymbol 1) empty_state)) !! 1%positive
               = Some (ResultErr (VSymbol 1))) by (vm_compute; reflexivity).
  destruct (@ResultErr_expect_loses_the_message_on_a_symbol example_runtime _
              1%positive 1%positive Hl)
    as (exn & s' & Hexp & _ & Hkind & _).
  exists exn, s'. split; [apply Hexp|]. split; [apply Hexp | exact Hkind].
Defined.

(** X16.  [expect] and [unwrap] where the documentation is met.  For
    every message [m], on a live container:
    - [expect(m)] and [unwrap] return the payload of an [OptionSome] or
      a [ResultOk], changing nothing;
    - on an [OptionNone], [expect(m)] throws a new [Error] whose message
      is [m] itself, and [unwrap] one with the fixed message
      ["Tried to unwrap None"];
    - on a [ResultErr], [expect(m)] and [unwrap] always fail, and when
      the conversion of the error value to a string returns [str], the
      [Error] thrown by [expect(m)] has the message [m], a line break,
      ["Original "] and [str], from which [m] is recovered by dropping
      what follows it, and the [Error] thrown by [unwrap] has the fixed
      message ["Tried to unwrap Error"] followed by the same line
      break, ["Original "] and [str]. *)
Theorem expect_and_unwrap `{Runtime}
    (s : state) (l : loc) (o : object) (m : string) :
  heap s !! l = Some o →
  (∀ v, o = OptionSome v ∨ o = ResultOk v →
     call_expect (VRef l) m s = (Normal v, s) ∧
     get (VRef l) P_unwrap s = (Normal v, s))
  ∧
  (o = OptionNone →
     (∃ exn s' detail,
        call_expect (VRef l) m s = (Thrown exn, s') ∧
        failure_kind s' exn = Some Error ∧
        failure_detail s' exn = Some detail ∧
        detail = m ∧ recover_message "" detail = m) ∧
     (∃ exn s',
        get (VRef l) P_unwrap s = (Thrown exn, s') ∧
        failure_kind s' exn = Some Error ∧
        failure_detail s' exn = Some "Tried to unwrap None"))
  ∧
  (∀ e, o = ResultErr e →
     fails (call_expect (VRef l) m) s ∧
     fails (get (VRef l) P_unwrap) s ∧
     (∀ str s1, to_string e s = (Normal str, s1) →
        (∃ exn s' detail,
           call_expect (VRef l) m s = (Thrown exn, s') ∧
           failure_kind s' exn = Some Error ∧
           failure_detail s' exn = Some detail ∧
           detail = m ++ newline ++ "Original " ++ str ∧
           recover_message (newline ++ "Original " ++ str) detail = m) ∧
        (∃ exn s',
           get (VRef l) P_unwrap s = (Thrown exn, s') ∧
           failure_kind s' exn = Some Error ∧
           failure_detail s' exn
           = Some ("Tried to unwrap Error" ++ newline ++ "Original " ++ str)))).
Proof.
  intros Hl. split; [|split].
  - intros v [-> | ->]; unfold call_expect;
      rewrite (call_run _ _ _ _ Hl), (get_run _ _ _ _ Hl); simpl;
      unfold OptionSome_expect, OptionSome_unwrap, ResultOk_expect, ResultOk_unwrap;
      rewrite (this_field_run _ _ _ _ Hl); split; reflexivity.
  - intros ->. split.
    + unfold call_expect. rewrite (call_run _ _ _ _ Hl). unfold OptionNone_expect.
      destruct (throw_new_Error m s) as (exn & s' & Hrun & Hkind & Hdet).
      exists exn, s', m. repeat split; try assumption. apply recover_message_whole.
    + rewrite (get_run _ _ _ _ Hl). simpl. apply throw_new_Error.
  - intros e ->.
    pose proof (ResultErr_throws m s l e Hl) as (Hfe & _ & _).
    pose proof (ResultErr_throws "Tried to unwrap Error" s l e Hl) as (Hfu & _ & _).
    assert (Hce : call_expect (VRef l) m s = ResultErr_expect l m s)
      by (unfold call_expect; rewrite (call_run _ _ _ _ Hl); reflexivity).
    assert (Hgu : get (VRef l) P_unwrap s = ResultErr_unwrap l s)
      by (rewrite (get_run _ _ _ _ Hl); reflexivity).
    split; [|split].
    + unfold fails. rewrite Hce. exact Hfe.
    + unfold fails. rewrite Hgu. exact Hfu.
    + intros str s1 Hstr. rewrite Hce, Hgu.
      unfold ResultErr_expect, ResultErr_unwrap.
      rewrite !(bind_normal _ _ _ _ _ (this_field_run _ _ _ P_error Hl)). simpl.
      rewrite !(bind_normal _ _ _ _ _ Hstr). split.
      * destruct (throw_new_Error (m ++ newline ++ "Original " ++ str) s1)
          as (exn & s' & Hrun & Hkind & Hdet).
        exists exn, s', (m ++ newline ++ "Original " ++ str).
        repeat split; try assumption. apply recover_message_append.
      * apply throw_new_Error.
Qed.

Lemma expect_and_unwrap_witness :
  let s := snd (err (num 42) empty_state) in
  heap s !! 1%positive = Some (ResultErr (num 42)) ∧
  @to_string example_runtime (num 42) s = (Normal "42", s) ∧
  ∃ exn s',
    @call_expect example_runtime (VRef 1) "YOYO" s = (Thrown exn, s') ∧
    failure_kind s' exn = Some Error ∧
    failure_detail s' exn = Some ("YOYO" ++ newline ++ "Original 42").
Proof.
  split; [vm_compute; reflexivity|].
  split; [vm_compute; reflexivity|].
  assert (Hl : heap (snd (err (num 42) empty_state)) !! 1%positive
               = Some (ResultErr (num 42))) by (vm_compute; reflexivity).
  destruct (proj2 (proj2 (@expect_and_unwrap example_runtime _ 1%positive
                            (ResultErr (num 42)) "YOYO" Hl)) (num 42) eq_refl)
    as (_ & _ & Hdet).
  destruct (Hdet "42" (snd (err (num 42) empty_state)) eq_refl)
    as ((exn & s' & detail & Hrun & Hk & Hd & -> & _) & _).
  exists exn, s'. repeat split; assumption.
Defined.

(* ===================================================================== *)
(** ** C8: the operations that never fail *)
(* ===================================================================== *)

Lemma returns_ret {A} (a : A) (s : state) : returns (mret a : M A) s.
Proof. unfold returns. eauto. Qed.

Lemma returns_bind {A B} (m : M A) (k : A → M B) (s s' : state) (a : A) :
  m s = (Normal a, s') → returns (k a) s' → returns (m ≫= k) s.
Proof.
  intros Hm (b & s'' & Hk). exists b, s''. rewrite (bind_normal _ _ _ _ _ Hm). exact Hk.
Qed.

Lemma returns_alloc (o : object) (s : state) : returns (alloc o) s.
Proof. unfold returns. rewrite alloc_run. eauto. Qed.

Lemma returns_invoke (f : mapper) (args : list value) (s : state) :
  total f → returns (invoke f args) s.
Proof. intros Hf. unfold invoke. apply Hf. Qed.

Lemma returns_invoke_then {B} (f : mapper) (args : list value) (k : value → M B)
    (s : state) :
  total f → (∀ v s', returns (k v) s') → returns (invoke f args ≫= k) s.
Proof.
  intros Hf Hk. destruct (returns_invoke f args s Hf) as (v & s' & Hv).
  eapply returns_bind; [exact Hv | apply Hk].
Qed.

(** C8.  On every live container of either family and for every
    supplied function that always returns, none of [map], [map_err],
    [and_then], [or_else], [compare] (with a live container of the same
    family), [to_result] and [to_option] throws: each returns
    normally. *)
Theorem total_operations_never_fail `{Runtime}
    (s : state) (l : loc) (o : object) (f : mapper) :
  heap s !! l = Some o →
  total f →
  (∀ c, supports o c = true → returns (call_combinator c (VRef l) f) s)
  ∧
  (∀ l' o', heap s !! l' = Some o' → same_family o o' = true →
            returns (call_compare (VRef l) (VRef l')) s)
  ∧
  (is_option o = true → ∀ e, returns (call_to_result (VRef l) e) s)
  ∧
  (is_result o = true → returns (get (VRef l) P_to_option) s).
Proof.
  intros Hl Hf. split; [|split; [|split]].
  - intros c Hc.
    destruct c; simpl;
      [unfold call_and_then | unfold call_or_else | unfold call_map | unfold call_map_err];
      apply (returns_bind _ _ _ _ _ (receiver_run _ _ _ Hl));
      destruct o; try discriminate Hc;
      unfold OptionSome_and_then, OptionNone_and_then, ResultOk_and_then,
             ResultErr_and_then, OptionSome_or_else, OptionNone_or_else,
             ResultOk_or_else, ResultErr_or_else, OptionSome_map, OptionNone_map,
             ResultOk_map, ResultErr_map, ResultOk_map_err, ResultErr_map_err;
      try apply returns_ret;
      try apply (returns_invoke _ _ _ Hf);
      try (eapply returns_bind; [apply (this_field_run _ _ _ _ Hl)|]);
      try apply (returns_invoke _ _ _ Hf);
      try (apply (returns_invoke_then _ _ _ _ Hf); intros; apply returns_alloc).
  - intros l' o' Hl' Hfam. unfold returns.
    rewrite (compare_run _ _ _ _ _ Hl Hl' Hfam). eauto.
  - intros Ho e. unfold call_to_result.
    apply (returns_bind _ _ _ _ _ (receiver_run _ _ _ Hl)).
    destruct o; try discriminate Ho.
    + unfold OptionSome_to_result.
      eapply returns_bind; [apply (this_field_run _ _ _ _ Hl)|]. apply returns_alloc.
    + apply returns_alloc.
  - intros Ho. unfold returns. rewrite (get_run _ _ _ _ Hl).
    destruct o; try discriminate Ho; simpl.
    + apply (returns_bind _ _ _ _ _ (this_field_run _ _ _ P_value Hl)), returns_alloc.
    + apply returns_alloc.
Qed.

Lemma wrapping_mapper_total : total wrapping_mapper.
Proof. intros args s. apply returns_alloc. Qed.

Lemma total_operations_never_fail_witness :
  let s := snd (some (num 42) empty_state) in
  heap s !! 1%positive = Some (OptionSome (num 42)) ∧
  total wrapping_mapper ∧
  returns (@call_combinator example_runtime Map (VRef 1) wrapping_mapper) s ∧
  returns (@call_compare example_runtime (VRef 1) (VRef 1)) s.
Proof.
  assert (Hl : heap (snd (some (num 42) empty_state)) !! 1%positive
               = Some (OptionSome (num 42))) by (vm_compute; reflexivity).
  split; [exact Hl|]. split; [exact wrapping_mapper_total|].
  destruct (@total_operations_never_fail example_runtime _ 1%positive
              (OptionSome (num 42)) wrapping_mapper Hl wrapping_mapper_total)
    as (Hcomb & Hcmp & _).
  split.
  - apply (Hcomb Map). reflexivity.
  - apply (Hcmp 1%positive (OptionSome (num 42)) Hl). reflexivity.
Defined.

(* ===================================================================== *)
(** ** C2 and C7: the conversions *)
(* ===================================================================== *)

Section Conversions.
Context `{Runtime}.

Lemma to_result_OptionSome (s : state) (l : loc) (v e : value) :
  heap s !! l = Some (OptionSome v) →
  call_to_result (VRef l) e s = (Normal (VRef (next_loc s)), store (ResultOk v) s).
Proof.
  intros Hl. unfold call_to_result. rewrite (call_run _ _ _ _ Hl).
  unfold OptionSome_to_result.
  rewrite (bind_normal _ _ _ _ _ (this_field_run _ _ _ P_value Hl)). reflexivity.
Qed.

Lemma to_result_OptionNone (s : state) (l : loc) (e : value) :
  heap s !! l = Some OptionNone →
  call_to_result (VRef l) e s = (Normal (VRef (next_loc s)), store (ResultErr e) s).
Proof.
  intros Hl. unfold call_to_result. rewrite (call_run _ _ _ _ Hl). reflexivity.
Qed.

Lemma to_option_ResultOk (s : state) (l : loc) (v : value) :
  heap s !! l = Some (ResultOk v) →
  get (VRef l) P_to_option s = (Normal (VRef (next_loc s)), store (OptionSome v) s).
Proof.
  intros Hl. rewrite (get_run _ _ _ _ Hl). simpl. unfold ResultOk_to_option.
  rewrite (bind_normal _ _ _ _ _ (this_field_run _ _ _ P_value Hl)). reflexivity.
Qed.

Lemma to_option_ResultErr (s : state) (l : loc) (e : value) :
  heap s !! l = Some (ResultErr e) →
  get (VRef l) P_to_option s = (Normal (VRef (next_loc s)), store OptionNone s).
Proof. intros Hl. rewrite (get_run _ _ _ _ Hl). reflexivity. Qed.

(** [o.compare(some(v))] for a live [OptionSome] holding [v]. *)
Lemma compare_with_fresh_some (s : state) (l : loc) (v : value) :
  heap s !! l = Some (OptionSome v) →
  ∃ s', (y ← some v; call_compare (VRef l) y) s
        = (Normal (VBool (strict_equals v v)), s').
Proof.
  intros Hl. exists (store (OptionSome v) s).
  unfold some. rewrite (bind_normal _ _ _ _ _ (alloc_run _ _)).
  rewrite (compare_run _ _ _ (OptionSome v) (OptionSome v));
    [reflexivity | apply store_old, Hl | apply store_new | reflexivity].
Qed.

Lemma some_round_trip_run (s : state) (v e : value) :
  ∃ s', some_round_trip v e s = (Normal (VBool (strict_equals v v)), s').
Proof.
  unfold some_round_trip, some.
  rewrite (bind_normal _ _ _ _ _ (alloc_run _ _)).
  rewrite (bind_normal _ _ _ _ _ (to_result_OptionSome _ _ _ e (store_new _ _))).
  rewrite (bind_normal _ _ _ _ _ (to_option_ResultOk _ _ _ (store_new _ _))).
  apply compare_with_fresh_some, store_new.
Qed.

Lemma ok_to_option_compare_run (s : state) (v : value) :
  ∃ s', ok_to_option_compare v s = (Normal (VBool (strict_equals v v)), s').
Proof.
  unfold ok_to_option_compare, ok.
  rewrite (bind_normal _ _ _ _ _ (alloc_run _ _)).
  rewrite (bind_normal _ _ _ _ _ (to_option_ResultOk _ _ _ (store_new _ _))).
  apply compare_with_fresh_some, store_new.
Qed.

End Conversions.

(** C2, as stated, fails at [v = NaN]:
    [some(NaN).to_result(e).to_option.compare(some(NaN))] is [false]. *)
Lemma some_round_trip_NaN :
  fst (@some_round_trip example_runtime NaN VUndefined empty_state)
  = Normal (VBool false).
Proof. vm_compute. reflexivity. Qed.

(** C2 (amended).  For every value [v] other than [NaN] and every error
    [e], [some(v).to_result(e).to_option.compare(some(v))] is [true];
    and for every [e], [none().to_result(e)] is a new [ResultErr]
    holding [e]. *)
Theorem some_round_trip_compares_equal `{Runtime} (s : state) (v e : value) :
  (v ≠ NaN → ∃ s', some_round_trip v e s = (Normal (VBool true), s'))
  ∧
  (∃ l s', none_to_result e s = (Normal (VRef l), s') ∧
           heap s' !! l = Some (ResultErr e)).
Proof.
  split.
  - intros Hv. destruct (some_round_trip_run s v e) as (s' & Hrun).
    exists s'. rewrite Hrun, (strict_equals_refl _ Hv). reflexivity.
  - unfold none_to_result, none.
    rewrite (bind_normal _ _ _ _ _ (alloc_run _ _)).
    rewrite (to_result_OptionNone _ _ e (store_new _ _)).
    eexists _, _. split; [reflexivity | apply store_new].
Qed.

Lemma some_round_trip_compares_equal_witness :
  num 42 ≠ NaN ∧
  ∃ s', @some_round_trip example_runtime (num 42) (VString "e") empty_state
        = (Normal (VBool true), s').
Proof.
  assert (Hv : num 42 ≠ NaN) by discriminate.
  split; [exact Hv|].
  exact (proj1 (@some_round_trip_compares_equal example_runtime empty_state
                  (num 42) (VString "e")) Hv).
Defined.

(** C7, as stated, fails at [v = NaN]:
    [ok(NaN).to_option.compare(some(NaN))] is [false]. *)
Lemma ok_to_option_compare_NaN :
  fst (@ok_to_option_compare example_runtime NaN empty_state)
  = Normal (VBool false).
Proof. vm_compute. reflexivity. Qed.

(** C7 (amended).  For every value [v] other than [NaN],
    [ok(v).to_option.compare(some(v))] is [true]; and for every error
    [e], [err(e).to_option] is a new [OptionNone], which holds nothing
    of [e], and its [none] is [true]. *)
Theorem to_option_of_ok_and_err `{Runtime} (s : state) (v e : value) :
  (v ≠ NaN → ∃ s', ok_to_option_compare v s = (Normal (VBool true), s'))
  ∧
  (∃ l s', (r ← err e; get r P_to_option) s = (Normal (VRef l), s') ∧
           heap s' !! l = Some OptionNone ∧
           err_to_option_none e s = (Normal (VBool true), s')).
Proof.
  split.
  - intros Hv. destruct (ok_to_option_compare_run s v) as (s' & Hrun).
    exists s'. rewrite Hrun, (strict_equals_refl _ Hv). reflexivity.
  - unfold err_to_option_none, err.
    rewrite !(bind_normal _ _ _ _ _ (alloc_run _ _)).
    rewrite (to_option_ResultErr _ _ e (store_new _ _)).
    eexists _, _. split; [reflexivity|]. split; [apply store_new|].
    rewrite (bind_normal _ _ _ _ _ (to_option_ResultErr _ _ e (store_new _ _))).
    rewrite (get_run _ _ _ _ (store_new _ _)). reflexivity.
Qed.

Lemma to_option_of_ok_and_err_witness :
  num 42 ≠ NaN ∧
  ∃ s', @ok_to_option_compare example_runtime (num 42) empty_state
        = (Normal (VBool true), s').
Proof.
  assert (Hv : num 42 ≠ NaN) by discriminate.
  split; [exact Hv|].
  exact (proj1 (@to_option_of_ok_and_err example_runtime empty_state
                  (num 42) VUndefined) Hv).
Defined.

(* ===================================================================== *)
(** ** Further properties of the classes *)
(* ===================================================================== *)

(** *** [unwrap_or] and [expect_err] *)

(** X1.  [unwrap_or(d)] never fails and calls nothing: on a live
    [OptionSome] or [ResultOk] it returns the payload and ignores [d];
    on a live [OptionNone] or [ResultErr] it returns [d] itself.  The
    state is unchanged. *)
Theorem unwrap_or_payload_or_default (s : state) (l : loc) (o : object) (d : value) :
  heap s !! l = Some o →
  (∀ v, o = OptionSome v ∨ o = ResultOk v →
        call_unwrap_or (VRef l) d s = (Normal v, s))
  ∧
  (o = OptionNone ∨ (∃ e, o = ResultErr e) →
        call_unwrap_or (VRef l) d s = (Normal d, s)).
Proof.
  intros Hl. unfold call_unwrap_or.
  rewrite (bind_normal _ _ _ _ _ (receiver_run _ _ _ Hl)). split.
  - intros v [-> | ->]; unfold OptionSome_unwrap_or, ResultOk_unwrap_or;
      rewrite (this_field_run _ _ _ _ Hl); reflexivity.
  - intros [-> | [e ->]]; reflexivity.
Qed.

Lemma unwrap_or_payload_or_default_witness :
  let s := snd ((a ← some (num 42); err (num 7)) empty_state) in
  (heap s !! 1%positive = Some (OptionSome (num 42)) ∧
   heap s !! 2%positive = Some (ResultErr (num 7))) ∧
  call_unwrap_or (VRef 1) (num 0) s = (Normal (num 42), s) ∧
  call_unwrap_or (VRef 2) (num 0) s = (Normal (num 0), s).
Proof.
  split; [vm_compute; split; reflexivity|].
  split.
  - refine (proj1 (unwrap_or_payload_or_default _ 1%positive (OptionSome (num 42))
                     (num 0) _) (num 42) _);
      [vm_compute; reflexivity | left; reflexivity].
  - refine (proj2 (unwrap_or_payload_or_default _ 2%positive (ResultErr (num 7))
                     (num 0) _) _);
      [vm_compute; reflexivity | right; exists (num 7); reflexivity].
Defined.

(** X2.  [expect_err(msg)] is the mirror of [expect]: on a live
    [ResultErr] it returns the error and changes nothing; on a live
    [ResultOk] it throws an [Error] whose message is exactly [msg] (the
    payload is not embedded, unlike the error in [ResultErr.expect]). *)
Theorem expect_err_mirrors_expect (s : state) (l : loc) (o : object) (msg : string) :
  heap s !! l = Some o →
  (∀ e, o = ResultErr e → call_expect_err (VRef l) msg s = (Normal e, s))
  ∧
  (∀ v, o = ResultOk v →
     ∃ exn s',
       call_expect_err (VRef l) msg s = (Thrown exn, s') ∧
       failure_kind s' exn = Some Error ∧
       failure_detail s' exn = Some msg).
Proof.
  intros Hl. unfold call_expect_err.
  rewrite (bind_normal _ _ _ _ _ (receiver_run _ _ _ Hl)). split.
  - intros e ->. unfold ResultErr_expect_err.
    rewrite (this_field_run _ _ _ _ Hl). reflexivity.
  - intros v ->. unfold ResultOk_expect_err. rewrite throw_new_run.
    eexists _, _. split; [reflexivity|].
    unfold failure_kind, failure_detail. rewrite store_new. split; reflexivity.
Qed.

Lemma expect_err_mirrors_expect_witness :
  let s := snd (ok (num 42) empty_state) in
  heap s !! 1%positive = Some (ResultOk (num 42)) ∧
  ∃ exn s',
    call_expect_err (VRef 1) "YOYO" s = (Thrown exn, s') ∧
    failure_kind s' exn = Some Error ∧
    failure_detail s' exn = Some "YOYO".
Proof.
  split; [vm_compute; reflexivity|].
  refine (proj2 (expect_err_mirrors_expect _ 1%positive (ResultOk (num 42)) "YOYO" _)
                (num 42) eq_refl).
  vm_compute. reflexivity.
Defined.

(** *** The combinators on their active variant *)

(** X3.  [and_then] on a live [OptionSome] or [ResultOk], and [or_else]
    on a live [OptionNone] or [ResultErr], are the call of the supplied
    function and nothing more: the function is called once, with the
    payload (with no argument for [OptionNone]), and whatever it does is
    the outcome, be it the value it returns (not wrapped again) or the
    exception it throws. *)
Theorem and_then_or_else_are_the_call `{Runtime}
    (s : state) (l : loc) (o : object) (c : combinator) (args : list value)
    (f : mapper) :
  heap s !! l = Some o →
  active_call o c = Some args →
  call_combinator c (VRef l) f s = f args (called args s).
Proof.
  intros Hl Hact.
  destruct o, c; simpl in Hact; try discriminate Hact;
    injection Hact as <-; simpl;
    unfold call_and_then, call_or_else; rewrite (call_run _ _ _ _ Hl);
    unfold OptionSome_and_then, ResultOk_and_then, OptionNone_or_else,
           ResultErr_or_else;
    try rewrite (bind_normal _ _ _ _ _ (this_field_run _ _ _ _ Hl));
    reflexivity.
Qed.

Lemma and_then_or_else_are_the_call_witness :
  let s := snd (err (num 42) empty_state) in
  heap s !! 1%positive = Some (ResultErr (num 42)) ∧
  @call_combinator example_runtime OrElse (VRef 1) wrapping_mapper s
  = wrapping_mapper [num 42] (called [num 42] s).
Proof.
  split; [vm_compute; reflexivity|].
  apply (@and_then_or_else_are_the_call example_runtime _ 1%positive
           (ResultErr (num 42)));
    vm_compute; reflexivity.
Defined.

(** X4.  [map] on a live [OptionSome] or [ResultOk], and [map_err] on a
    live [ResultErr], call the supplied function once with the payload.
    When it returns [r], the result is a new object of the same class
    holding [r], at an address that was free, and nothing else changes
    after the call: the heap is the one the function left with that one
    object added, and the record of calls is the one it left.  When it
    throws, the same exception leaves the combinator, in the state the
    function left, and no container is built. *)
Theorem map_builds_a_new_container `{Runtime}
    (s : state) (l : loc) (o : object) (c : combinator) (v : value)
    (wrap : value → object) (f : mapper) :
  heap s !! l = Some o →
  mapping o = Some (c, v, wrap) →
  (∀ r s1, f [v] (called [v] s) = (Normal r, s1) →
     ∃ l' s',
       call_combinator c (VRef l) f s = (Normal (VRef l'), s') ∧
       heap s1 !! l' = None ∧
       heap s' = <[l' := wrap r]> (heap s1) ∧
       heap s' !! l' = Some (wrap r) ∧
       trace s' = trace s1)
  ∧
  (∀ exn s1, f [v] (called [v] s) = (Thrown exn, s1) →
     call_combinator c (VRef l) f s = (Thrown exn, s1)).
Proof.
  intros Hl Hmap.
  assert (Hrun : call_combinator c (VRef l) f s
                 = (r ← invoke f [v]; alloc (wrap r)) s).
  { destruct o; simpl in Hmap; try discriminate Hmap;
      injection Hmap as <- <- <-; simpl;
      unfold call_map, call_map_err; rewrite (call_run _ _ _ _ Hl);
      unfold OptionSome_map, ResultOk_map, ResultErr_map_err;
      rewrite (bind_normal _ _ _ _ _ (this_field_run _ _ _ _ Hl)); reflexivity. }
  rewrite Hrun. split.
  - intros r s1 Hf. exists (next_loc s1), (store (wrap r) s1).
    assert (Hinv : invoke f [v] s = (Normal r, s1)) by exact Hf.
    rewrite (bind_normal _ _ _ _ _ Hinv), alloc_run.
    split; [reflexivity|]. split; [apply next_loc_fresh|].
    split; [reflexivity|]. split; [apply store_new | reflexivity].
  - intros exn s1 Hf.
    assert (Hinv : invoke f [v] s = (Thrown exn, s1)) by exact Hf.
    apply (bind_thrown _ _ _ _ _ Hinv).
Qed.

Lemma map_builds_a_new_container_witness :
  let s := snd (err (num 42) empty_state) in
  let s1 := snd (pure_mapper (λ _, VString "mapped") [num 42] (called [num 42] s)) in
  heap s !! 1%positive = Some (ResultErr (num 42)) ∧
  pure_mapper (λ _, VString "mapped") [num 42] (called [num 42] s)
  = (Normal (VString "mapped"), s1) ∧
  (∃ l' s',
     @call_combinator example_runtime MapErr (VRef 1)
       (pure_mapper (λ _, VString "mapped")) s = (Normal (VRef l'), s') ∧
     heap s1 !! l' = None ∧
     heap s' = <[l' := ResultErr (VString "mapped")]> (heap s1) ∧
     heap s' !! l' = Some (ResultErr (VString "mapped")) ∧
     trace s' = trace s1) ∧
  @call_combinator example_runtime MapErr (VRef 1) asserting_mapper s
  = asserting_mapper [num 42] (called [num 42] s).
Proof.
  split; [vm_compute; reflexivity|].
  split; [reflexivity|].
  assert (Hl : heap (snd (err (num 42) empty_state)) !! 1%positive
               = Some (ResultErr (num 42))) by (vm_compute; reflexivity).
  split.
  - exact (proj1 (@map_builds_a_new_container example_runtime _ 1%positive
                    (ResultErr (num 42)) MapErr (num 42) ResultErr
                    (pure_mapper (λ _, VString "mapped")) Hl eq_refl)
                 (VString "mapped") _ eq_refl).
  - exact (proj2 (@map_builds_a_new_container example_runtime _ 1%positive
                    (ResultErr (num 42)) MapErr (num 42) ResultErr asserting_mapper
                    Hl eq_refl)
                 _ _ eq_refl).
Defined.

(** X5.  A whole chain of combinators that are all inactive on the
    receiver is a no-op: [x.c1(f1).c2(f2)...] returns [x] itself and
    leaves the state unchanged, so none of the functions runs.  (An
    [err(e)] passes through any chain of [and_then] and [map], a
    [none()] likewise, an [ok(v)] through any chain of [or_else] and
    [map_err].) *)
Theorem inactive_pipeline_returns_this `{Runtime}
    (steps : list (combinator * mapper)) (s : state) (l : loc) (o : object) :
  heap s !! l = Some o →
  forallb (λ step, inactive o (fst step)) steps = true →
  call_pipeline steps (VRef l) s = (Normal (VRef l), s).
Proof.
  intros Hl. induction steps as [|[c f] rest IH]; intros Hall.
  - reflexivity.
  - simpl in Hall. apply andb_prop in Hall as [Hc Hrest]. simpl.
    assert (Hstep : call_combinator c (VRef l) f s = (Normal (VRef l), s)).
    { destruct c; simpl;
        [unfold call_and_then | unfold call_or_else | unfold call_map
        | unfold call_map_err];
        rewrite (call_run _ _ _ _ Hl); destruct o; try discriminate Hc; reflexivity. }
    rewrite (bind_normal _ _ _ _ _ Hstep). apply IH, Hrest.
Qed.

Lemma inactive_pipeline_returns_this_witness :
  let s := snd (err (num 42) empty_state) in
  let steps := [(AndThen, asserting_mapper); (Map, asserting_mapper);
                (AndThen, asserting_mapper)] in
  heap s !! 1%positive = Some (ResultErr (num 42)) ∧
  @call_pipeline example_runtime steps (VRef 1) s = (Normal (VRef 1), s).
Proof.
  split; [vm_compute; reflexivity|].
  apply (@inactive_pipeline_returns_this example_runtime _ _ 1%positive
           (ResultErr (num 42)));
    vm_compute; reflexivity.
Defined.

(** *** [compare] as a relation *)

Lemma SFeqb_true_inv (x y : spec_float) :
  SFeqb x y = true →
  (∃ sx sy, x = S754_zero sx ∧ y = S754_zero sy) ∨ (x = y ∧ x ≠ S754_nan).
Proof.
  unfold SFeqb, SFcompare.
  destruct x as [sx|sx| |sx mx ex], y as [sy|sy| |sy my ey];
    try discriminate; try (destruct sx; discriminate);
    try (destruct sy; discriminate).
  - intros _. left. eauto.
  - destruct sx, sy; try discriminate; intros _; right; split; congruence.
  - change (PosDef.Pos.compare_cont Eq mx my) with (Pos.compare mx my).
    destruct sx, sy; try discriminate;
      destruct (Z.compare_spec ex ey) as [->| |]; try discriminate;
      destruct (Pos.compare_spec mx my) as [->| |]; try discriminate;
      intros _; right; split; congruence.
Qed.

Lemma SFeqb_true_trans (x y z : spec_float) :
  SFeqb x y = true → SFeqb y z = true → SFeqb x z = true.
Proof.
  intros Hxy Hyz.
  destruct (SFeqb_true_inv _ _ Hxy) as [(sx & sy & -> & ->) | [-> Hx]].
  - destruct (SFeqb_true_inv _ _ Hyz) as [(sy' & sz & _ & ->) | [<- _]]; reflexivity.
  - exact Hyz.
Qed.

Lemma strict_equals_true_trans (a b c : value) :
  strict_equals a b = true → strict_equals b c = true → strict_equals a c = true.
Proof.
  destruct a, b; simpl; try discriminate; destruct c; simpl; try discriminate;
    try reflexivity.
  - rewrite !Bool.eqb_true_iff. congruence.
  - apply SFeqb_true_trans.
  - rewrite !Z.eqb_eq. congruence.
  - rewrite !String.eqb_eq. congruence.
  - rewrite !Pos.eqb_eq. congruence.
  - rewrite !Pos.eqb_eq. congruence.
Qed.

Lemma same_variant_equal_trans (o1 o2 o3 : object) :
  same_variant_equal o1 o2 = true → same_variant_equal o2 o3 = true →
  same_variant_equal o1 o3 = true.
Proof.
  destruct o1, o2; simpl; try discriminate; destruct o3; simpl; try discriminate;
    try reflexivity; apply strict_equals_true_trans.
Qed.

Lemma same_family_sym (o1 o2 : object) :
  same_family o1 o2 = true → same_family o2 o1 = true.
Proof. destruct o1, o2; try discriminate; reflexivity. Qed.

Lemma same_variant_equal_family (o1 o2 : object) :
  same_variant_equal o1 o2 = true → same_family o1 o2 = true.
Proof. destruct o1, o2; try discriminate; reflexivity. Qed.

(** X6.  On the live containers of one family [compare] is a partial
    equivalence: it always answers with a boolean and changes nothing,
    [a.compare(b)] and [b.compare(a)] give the same answer, and when
    [a.compare(b)] and [b.compare(c)] are [true] so is [a.compare(c)]. *)
Theorem compare_is_a_partial_equivalence `{Runtime}
    (s : state) (l1 l2 : loc) (o1 o2 : object) :
  heap s !! l1 = Some o1 →
  heap s !! l2 = Some o2 →
  same_family o1 o2 = true →
  (∃ b : bool, call_compare (VRef l1) (VRef l2) s = (Normal (VBool b), s))
  ∧
  call_compare (VRef l1) (VRef l2) s = call_compare (VRef l2) (VRef l1) s
  ∧
  (∀ l3 o3,
     heap s !! l3 = Some o3 →
     same_family o2 o3 = true →
     call_compare (VRef l1) (VRef l2) s = (Normal (VBool true), s) →
     call_compare (VRef l2) (VRef l3) s = (Normal (VBool true), s) →
     call_compare (VRef l1) (VRef l3) s = (Normal (VBool true), s)).
Proof.
  intros H1 H2 Hfam.
  pose proof (same_family_sym _ _ Hfam) as Hfam'.
  rewrite (compare_run _ _ _ _ _ H1 H2 Hfam), (compare_run _ _ _ _ _ H2 H1 Hfam').
  split; [eauto|]. split.
  - destruct o1, o2; try discriminate Hfam; simpl; try reflexivity;
      rewrite strict_equals_sym; reflexivity.
  - intros l3 o3 H3 Hfam23 H12 H23.
    rewrite (compare_run _ _ _ _ _ H2 H3 Hfam23) in H23.
    assert (E12 : same_variant_equal o1 o2 = true) by congruence.
    assert (E23 : same_variant_equal o2 o3 = true) by congruence.
    pose proof (same_variant_equal_trans _ _ _ E12 E23) as E13.
    rewrite (compare_run _ _ _ _ _ H1 H3 (same_variant_equal_family _ _ E13)), E13.
    reflexivity.
Qed.

Lemma compare_is_a_partial_equivalence_witness :
  let s := snd ((a ← some (num 42); b ← some (num 42); some (num 42)) empty_state) in
  (heap s !! 1%positive = Some (OptionSome (num 42)) ∧
   heap s !! 2%positive = Some (OptionSome (num 42)) ∧
   heap s !! 3%positive = Some (OptionSome (num 42))) ∧
  @call_compare example_runtime (VRef 1) (VRef 2) s
  = @call_compare example_runtime (VRef 2) (VRef 1) s ∧
  @call_compare example_runtime (VRef 1) (VRef 3) s = (Normal (VBool true), s).
Proof.
  split; [vm_compute; repeat split; reflexivity|].
  assert (H1 : heap (snd ((a ← some (num 42); b ← some (num 42); some (num 42))
                            empty_state)) !! 1%positive
               = Some (OptionSome (num 42))) by (vm_compute; reflexivity).
  assert (H2 : heap (snd ((a ← some (num 42); b ← some (num 42); some (num 42))
                            empty_state)) !! 2%positive
               = Some (OptionSome (num 42))) by (vm_compute; reflexivity).
  assert (H3 : heap (snd ((a ← some (num 42); b ← some (num 42); some (num 42))
                            empty_state)) !! 3%positive
               = Some (OptionSome (num 42))) by (vm_compute; reflexivity).
  destruct (@compare_is_a_partial_equivalence example_runtime _ _ _ _ _ H1 H2 eq_refl)
    as (_ & Hsym & Htrans).
  split; [exact Hsym|].
  apply (Htrans 3%positive _ H3); vm_compute; reflexivity.
Defined.

(** *** The discriminant and the fields *)

(** X7.  Testing the discriminant tells which field can be read.  On a
    live [OptionSome] or [OptionNone], [some] is [true] exactly when the
    object is an [OptionSome], and then [value] reads its payload, else
    [value] reads [undefined].  On a live [ResultOk] or [ResultErr],
    [ok] is [true] exactly when the object is a [ResultOk], and then
    [value] reads the payload and [error] reads [undefined]; else
    [error] reads the error and [value] reads [undefined].  No read
    changes anything. *)
Theorem discriminant_tells_the_field `{Runtime}
    (s : state) (l : loc) (o : object) :
  heap s !! l = Some o →
  (is_option o = true →
     ∃ b : bool,
       get (VRef l) P_some s = (Normal (VBool b), s) ∧
       if b
       then ∃ v, o = OptionSome v ∧ get (VRef l) P_value s = (Normal v, s)
       else o = OptionNone ∧ get (VRef l) P_value s = (Normal VUndefined, s))
  ∧
  (is_result o = true →
     ∃ b : bool,
       get (VRef l) P_ok s = (Normal (VBool b), s) ∧
       if b
       then ∃ v, o = ResultOk v ∧
                 get (VRef l) P_value s = (Normal v, s) ∧
                 get (VRef l) P_error s = (Normal VUndefined, s)
       else ∃ e, o = ResultErr e ∧
                 get (VRef l) P_error s = (Normal e, s) ∧
                 get (VRef l) P_value s = (Normal VUndefined, s)).
Proof.
  intros Hl. split; intros Ho; destruct o; try discriminate Ho;
    rewrite !(get_run _ _ _ _ Hl); simpl.
  - exists true. split; [reflexivity|]. eauto.
  - exists false. split; [reflexivity|]. split; reflexivity.
  - exists true. split; [reflexivity|]. eauto.
  - exists false. split; [reflexivity|]. eauto.
Qed.

Lemma discriminant_tells_the_field_witness :
  let s := snd (err (num 42) empty_state) in
  heap s !! 1%positive = Some (ResultErr (num 42)) ∧
  ∃ b : bool,
    @get example_runtime (VRef 1) P_ok s = (Normal (VBool b), s) ∧
    if b
    then ∃ v, ResultErr (num 42) = ResultOk v ∧
              @get example_runtime (VRef 1) P_value s = (Normal v, s) ∧
              @get example_runtime (VRef 1) P_error s = (Normal VUndefined, s)
    else ∃ e, ResultErr (num 42) = ResultErr e ∧
              @get example_runtime (VRef 1) P_error s = (Normal e, s) ∧
              @get example_runtime (VRef 1) P_value s = (Normal VUndefined, s).
Proof.
  split; [vm_compute; reflexivity|].
  refine (proj2 (@discriminant_tells_the_field example_runtime _ 1%positive
                   (ResultErr (num 42)) _) eq_refl).
  vm_compute. reflexivity.
Defined.

(** *** New instances *)

Section Instances.
Context `{Runtime}.

Lemma to_option_run (s : state) (l : loc) (o : object) :
  heap s !! l = Some o →
  is_result o = true →
  get (VRef l) P_to_option s
  = (Normal (VRef (next_loc s)),
     store (match o with ResultOk v => OptionSome v | _ => OptionNone end) s).
Proof.
  intros Hl Ho. destruct o; try discriminate Ho.
  - apply to_option_ResultOk, Hl.
  - apply (to_option_ResultErr _ _ _ Hl).
Qed.

End Instances.

Lemma next_loc_not_live (s : state) (l : loc) (o : object) :
  heap s !! l = Some o → next_loc s ≠ l.
Proof. intros Hl Heq. rewrite <- Heq, next_loc_fresh in Hl. discriminate. Qed.

(** X8.  [to_option] is a getter that builds a new object at every
    read: on a live [ResultOk] or [ResultErr], two reads of
    [x.to_option] return two different references, neither of them in
    use before, so [x.to_option === x.to_option] is [false]; the two
    objects still compare equal ([true] for a [ResultErr], and [v === v]
    for a [ResultOk] holding [v]). *)
Theorem to_option_builds_a_new_object_each_read `{Runtime}
    (s : state) (l : loc) (o : object) :
  heap s !! l = Some o →
  is_result o = true →
  ∃ l1 l2 s',
    to_option_twice (VRef l) s = (Normal (VRef l1, VRef l2), s') ∧
    l1 ≠ l2 ∧
    strict_equals (VRef l1) (VRef l2) = false ∧
    heap s !! l1 = None ∧ heap s !! l2 = None ∧
    call_compare (VRef l1) (VRef l2) s'
    = (Normal (VBool (match o with
                      | ResultOk v => strict_equals v v
                      | _ => true
                      end)), s').
Proof.
  intros Hl Ho.
  set (o' := match o with ResultOk v => OptionSome v | _ => OptionNone end).
  pose proof (to_option_run s l o Hl Ho) as R1. fold o' in R1.
  pose proof (to_option_run (store o' s) l o (store_old _ _ _ _ Hl) Ho) as R2.
  fold o' in R2.
  exists (next_loc s), (next_loc (store o' s)), (store o' (store o' s)).
  assert (Hne : next_loc s ≠ next_loc (store o' s)).
  { intros Heq. apply (next_loc_not_live (store o' s) (next_loc s) o').
    - apply store_new.
    - symmetry. exact Heq. }
  split; [|split; [exact Hne|split; [apply strict_equals_ref, Hne|split; [|split]]]].
  - unfold to_option_twice.
    rewrite (bind_normal _ _ _ _ _ R1), (bind_normal _ _ _ _ _ R2). reflexivity.
  - apply next_loc_fresh.
  - destruct (heap s !! next_loc (store o' s)) as [o0|] eqn:Hlook; [|reflexivity].
    pose proof (store_old o' _ _ _ Hlook) as Hold.
    rewrite next_loc_fresh in Hold. discriminate.
  - rewrite (compare_run _ _ _ o' o').
    + destruct o; try discriminate Ho; reflexivity.
    + apply store_old, store_new.
    + apply store_new.
    + destruct o; try discriminate Ho; reflexivity.
Qed.

Lemma to_option_builds_a_new_object_each_read_witness :
  let s := snd (err (num 42) empty_state) in
  heap s !! 1%positive = Some (ResultErr (num 42)) ∧
  ∃ l1 l2 s',
    @to_option_twice example_runtime (VRef 1) s = (Normal (VRef l1, VRef l2), s') ∧
    l1 ≠ l2 ∧
    strict_equals (VRef l1) (VRef l2) = false ∧
    heap s !! l1 = None ∧ heap s !! l2 = None ∧
    @call_compare example_runtime (VRef l1) (VRef l2) s' = (Normal (VBool true), s').
Proof.
  split; [vm_compute; reflexivity|].
  apply (@to_option_builds_a_new_object_each_read example_runtime _ 1%positive
           (ResultErr (num 42)));
    vm_compute; reflexivity.
Defined.

(** X9.  [none()] is no singleton: in every state two calls return two
    different references ([none() === none()] is [false]), each to a
    new [OptionNone], and the two compare equal in both directions. *)
Theorem none_is_not_a_singleton `{Runtime} (s : state) :
  ∃ l1 l2 s',
    none_twice s = (Normal (VRef l1, VRef l2), s') ∧
    strict_equals (VRef l1) (VRef l2) = false ∧
    heap s !! l1 = None ∧ heap s !! l2 = None ∧
    heap s' !! l1 = Some OptionNone ∧ heap s' !! l2 = Some OptionNone ∧
    call_compare (VRef l1) (VRef l2) s' = (Normal (VBool true), s') ∧
    call_compare (VRef l2) (VRef l1) s' = (Normal (VBool true), s').
Proof.
  exists (next_loc s), (next_loc (store OptionNone s)),
         (store OptionNone (store OptionNone s)).
  assert (Hne : next_loc s ≠ next_loc (store OptionNone s)).
  { intros Heq. apply (next_loc_not_live (store OptionNone s) (next_loc s) OptionNone).
    - apply store_new.
    - symmetry. exact Heq. }
  assert (H1 : heap (store OptionNone (store OptionNone s)) !! next_loc s
               = Some OptionNone) by apply store_old, store_new.
  assert (H2 : heap (store OptionNone (store OptionNone s))
                 !! next_loc (store OptionNone s) = Some OptionNone)
    by apply store_new.
  repeat split; try assumption.
  - apply strict_equals_ref, Hne.
  - apply next_loc_fresh.
  - destruct (heap s !! next_loc (store OptionNone s)) as [o0|] eqn:Hlook;
      [|reflexivity].
    pose proof (store_old OptionNone _ _ _ Hlook) as Hold.
    rewrite next_loc_fresh in Hold. discriminate.
  - apply (compare_run _ _ _ _ _ H1 H2 eq_refl).
  - apply (compare_run _ _ _ _ _ H2 H1 eq_refl).
Qed.

Lemma none_is_not_a_singleton_example :
  fst (none_twice empty_state) = Normal (VRef 1, VRef 2).
Proof. vm_compute. reflexivity. Qed.

(** *** From a result to an option and back *)

(** X10.  [x.to_option.to_result(e')] on a live [ResultOk] holding [v]
    is a new [ResultOk] holding [v] ([e'] is ignored); on a live
    [ResultErr] holding [e] it is a new [ResultErr] holding [e'], the
    original error [e] being lost on the way.  The receiver is left as
    it was, and the new object compares equal to it exactly when
    [v === v], respectively [e' === e]. *)
Theorem result_round_trip_replaces_the_error `{Runtime}
    (s : state) (l : loc) (o : object) (e' : value) :
  heap s !! l = Some o →
  is_result o = true →
  ∃ l' s',
    result_round_trip (VRef l) e' s = (Normal (VRef l'), s') ∧
    heap s' !! l' = Some (match o with ResultOk v => ResultOk v | _ => ResultErr e' end) ∧
    heap s' !! l = Some o ∧
    l' ≠ l ∧
    call_compare (VRef l') (VRef l) s'
    = (Normal (VBool (match o with
                      | ResultOk v => strict_equals v v
                      | ResultErr e => strict_equals e' e
                      | _ => false
                      end)), s').
Proof.
  intros Hl Ho.
  set (o1 := match o with ResultOk v => OptionSome v | _ => OptionNone end).
  set (o2 := match o with ResultOk v => ResultOk v | _ => ResultErr e' end).
  pose proof (to_option_run s l o Hl Ho) as R1. fold o1 in R1.
  assert (R2 : call_to_result (VRef (next_loc s)) e' (store o1 s)
               = (Normal (VRef (next_loc (store o1 s))), store o2 (store o1 s))).
  { destruct o; try discriminate Ho; subst o1 o2.
    - apply to_result_OptionSome, store_new.
    - apply to_result_OptionNone, store_new. }
  assert (Hl' : heap (store o2 (store o1 s)) !! l = Some o)
    by (apply store_old, store_old, Hl).
  exists (next_loc (store o1 s)), (store o2 (store o1 s)).
  split; [|split; [apply store_new|split; [exact Hl'|split]]].
  - unfold result_round_trip. rewrite (bind_normal _ _ _ _ _ R1). exact R2.
  - apply (next_loc_not_live _ _ o), store_old, Hl.
  - rewrite (compare_run _ _ _ o2 o (store_new _ _) Hl').
    + destruct o; try discriminate Ho; reflexivity.
    + destruct o; try discriminate Ho; reflexivity.
Qed.

Lemma result_round_trip_replaces_the_error_witness :
  let s := snd (err (num 42) empty_state) in
  heap s !! 1%positive = Some (ResultErr (num 42)) ∧
  ∃ l' s',
    @result_round_trip example_runtime (VRef 1) (num 7) s = (Normal (VRef l'), s') ∧
    heap s' !! l' = Some (ResultErr (num 7)) ∧
    heap s' !! 1%positive = Some (ResultErr (num 42)) ∧
    l' ≠ 1%positive ∧
    @call_compare example_runtime (VRef l') (VRef 1) s' = (Normal (VBool false), s').
Proof.
  split; [vm_compute; reflexivity|].
  apply (@result_round_trip_replaces_the_error example_runtime _ 1%positive
           (ResultErr (num 42)) (num 7));
    vm_compute; reflexivity.
Defined.

(** *** [map] with functions without effects *)

Section Mapping.
Context `{Runtime}.

(** [map] (and [map_err] on a [ResultErr]): the call, then [new]. *)
Lemma mapping_run (s : state) (l : loc) (o : object) (c : combinator) (v : value)
    (wrap : value → object) (f : mapper) :
  heap s !! l = Some o →
  mapping o = Some (c, v, wrap) →
  call_combinator c (VRef l) f s = (r ← invoke f [v]; alloc (wrap r)) s.
Proof.
  intros Hl Hmap.
  destruct o; simpl in Hmap; try discriminate Hmap;
    injection Hmap as <- <- <-; simpl;
    unfold call_map, call_map_err; rewrite (call_run _ _ _ _ Hl);
    unfold OptionSome_map, ResultOk_map, ResultErr_map_err;
    rewrite (bind_normal _ _ _ _ _ (this_field_run _ _ _ _ Hl)); reflexivity.
Qed.

Lemma mapping_pure_run (s : state) (l : loc) (o : object) (c : combinator)
    (v : value) (wrap : value → object) (h : value → value) :
  heap s !! l = Some o →
  mapping o = Some (c, v, wrap) →
  call_combinator c (VRef l) (pure_mapper h) s
  = (Normal (VRef (next_loc (called [v] s))), store (wrap (h v)) (called [v] s)).
Proof. intros Hl Hmap. rewrite (mapping_run _ _ _ _ _ _ _ Hl Hmap). reflexivity. Qed.

Lemma mapping_wrap (o : object) (c : combinator) (v : value)
    (wrap : value → object) :
  mapping o = Some (c, v, wrap) →
  o = wrap v ∧ ∀ w, mapping (wrap w) = Some (c, w, wrap).
Proof.
  destruct o; simpl; try discriminate; intros Hmap; injection Hmap as <- <- <-;
    split; reflexivity.
Qed.

End Mapping.

(** X11.  Mapping with the identity gives an equal container, not the
    same one: on a live [OptionSome] or [ResultOk] ([map]) or
    [ResultErr] ([map_err]) holding [v], [x.map(v => v)] is a new object
    of the same class, different from [x], that holds [v]; it compares
    equal to [x] exactly when [v === v], that is unless [v] is [NaN]. *)
Theorem map_identity_gives_an_equal_copy `{Runtime}
    (s : state) (l : loc) (o : object) (c : combinator) (v : value)
    (wrap : value → object) :
  heap s !! l = Some o →
  mapping o = Some (c, v, wrap) →
  ∃ l' s',
    call_combinator c (VRef l) (pure_mapper (λ x, x)) s = (Normal (VRef l'), s') ∧
    l' ≠ l ∧
    heap s' !! l' = Some (wrap v) ∧
    heap s' !! l = Some o ∧
    call_compare (VRef l') (VRef l) s' = (Normal (VBool (strict_equals v v)), s') ∧
    (v ≠ NaN → call_compare (VRef l') (VRef l) s' = (Normal (VBool true), s')).
Proof.
  intros Hl Hmap.
  assert (Hl' : heap (store (wrap v) (called [v] s)) !! l = Some o)
    by (apply store_old; exact Hl).
  assert (Hcmp : call_compare (VRef (next_loc (called [v] s))) (VRef l)
                   (store (wrap v) (called [v] s))
                 = (Normal (VBool (strict_equals v v)), store (wrap v) (called [v] s))).
  { rewrite (compare_run _ _ _ (wrap v) o (store_new _ _) Hl').
    - destruct o; simpl in Hmap; try discriminate Hmap;
        injection Hmap as <- <- <-; reflexivity.
    - destruct o; simpl in Hmap; try discriminate Hmap;
        injection Hmap as <- <- <-; reflexivity. }
  exists (next_loc (called [v] s)), (store (wrap v) (called [v] s)).
  split; [apply (mapping_pure_run _ _ _ _ _ _ (λ x, x) Hl Hmap)|].
  split; [apply (next_loc_not_live (called [v] s) l o); exact Hl|].
  split; [apply store_new|]. split; [exact Hl'|]. split; [exact Hcmp|].
  intros Hv. rewrite Hcmp, (strict_equals_refl _ Hv). reflexivity.
Qed.

Lemma map_identity_gives_an_equal_copy_witness :
  let s := snd (some (num 42) empty_state) in
  heap s !! 1%positive = Some (OptionSome (num 42)) ∧
  ∃ l' s',
    @call_combinator example_runtime Map (VRef 1) (pure_mapper (λ x, x)) s
    = (Normal (VRef l'), s') ∧
    l' ≠ 1%positive ∧
    @call_compare example_runtime (VRef l') (VRef 1) s' = (Normal (VBool true), s').
Proof.
  split; [vm_compute; reflexivity|].
  assert (Hl : heap (snd (some (num 42) empty_state)) !! 1%positive
               = Some (OptionSome (num 42))) by (vm_compute; reflexivity).
  destruct (@map_identity_gives_an_equal_copy example_runtime _ 1%positive
              (OptionSome (num 42)) Map (num 42) OptionSome Hl eq_refl)
    as (l' & s' & Hrun & Hne & _ & _ & _ & Hcmp).
  exists l', s'. split; [exact Hrun|]. split; [exact Hne|].
  apply Hcmp. discriminate.
Defined.

(** X12.  Mapping composes: for functions [h] and [k] without effects,
    [x.map(h).map(k)] and [x.map(v => k(h(v)))] both end in a new
    object of the class of [x] that holds [k (h v)], where [v] is the
    payload of [x] ([map_err] on a [ResultErr], [map] otherwise); the
    first builds an intermediate container holding [h v] and calls two
    functions, the second calls one. *)
Theorem map_composes `{Runtime}
    (s : state) (l : loc) (o : object) (c : combinator) (v : value)
    (wrap : value → object) (h k : value → value) :
  heap s !! l = Some o →
  mapping o = Some (c, v, wrap) →
  (∃ (l1 l2 : loc) s2,
     (y ← call_combinator c (VRef l) (pure_mapper h);
      call_combinator c y (pure_mapper k)) s = (Normal (VRef l2), s2) ∧
     heap s2 !! l1 = Some (wrap (h v)) ∧
     heap s2 !! l2 = Some (wrap (k (h v))) ∧
     trace s2 = (trace s ++ [Call [v]; Call [h v]])%list)
  ∧
  (∃ l' s',
     call_combinator c (VRef l) (pure_mapper (λ x, k (h x))) s
     = (Normal (VRef l'), s') ∧
     heap s' !! l' = Some (wrap (k (h v))) ∧
     trace s' = (trace s ++ [Call [v]])%list).
Proof.
  intros Hl Hmap.
  destruct (mapping_wrap _ _ _ _ Hmap) as [_ Hwrap]. split.
  - set (s1 := store (wrap (h v)) (called [v] s)).
    assert (H1 : heap s1 !! next_loc (called [v] s) = Some (wrap (h v)))
      by apply store_new.
    exists (next_loc (called [v] s)), (next_loc (called [h v] s1)),
           (store (wrap (k (h v))) (called [h v] s1)).
    split; [|split; [|split]].
    + rewrite (bind_normal _ _ _ _ _ (mapping_pure_run _ _ _ _ _ _ h Hl Hmap)).
      apply (mapping_pure_run _ _ _ _ _ _ k H1 (Hwrap (h v))).
    + apply store_old. exact H1.
    + apply store_new.
    + simpl. rewrite <- app_assoc. reflexivity.
  - exists (next_loc (called [v] s)), (store (wrap (k (h v))) (called [v] s)).
    split; [apply (mapping_pure_run _ _ _ _ _ _ (λ x, k (h x)) Hl Hmap)|].
    split; [apply store_new | reflexivity].
Qed.

Lemma map_composes_witness :
  let s := snd (ok (num 42) empty_state) in
  let h := λ _ : value, VString "a" in
  let k := λ _ : value, VString "b" in
  heap s !! 1%positive = Some (ResultOk (num 42)) ∧
  ∃ l' s',
    @call_combinator example_runtime Map (VRef 1) (pure_mapper (λ x, k (h x))) s
    = (Normal (VRef l'), s') ∧
    heap s' !! l' = Some (ResultOk (VString "b")) ∧
    trace s' = (trace s ++ [Call [num 42]])%list.
Proof.
  split; [vm_compute; reflexivity|].
  assert (Hl : heap (snd (ok (num 42) empty_state)) !! 1%positive
               = Some (ResultOk (num 42))) by (vm_compute; reflexivity).
  exact (proj2 (@map_composes example_runtime _ 1%positive (ResultOk (num 42)) Map
                  (num 42) ResultOk (λ _, VString "a") (λ _, VString "b") Hl eq_refl)).
Defined.

(** *** Nothing is ever overwritten *)

Lemma preserves_refl (s : state) : preserves s s.
Proof. intros l o Hl. exact Hl. Qed.

Lemma preserves_trans (s1 s2 s3 : state) :
  preserves s1 s2 → preserves s2 s3 → preserves s1 s3.
Proof. intros H12 H23 l o Hl. apply H23, H12, Hl. Qed.

Lemma preserves_store (o : object) (s : state) : preserves s (store o s).
Proof. intros l o' Hl. apply store_old, Hl. Qed.

Lemma frame_ret {A} (a : A) : frame_preserving (mret a : M A).
Proof. intros s c s' Hrun. injection Hrun as _ <-. apply preserves_refl. Qed.

Lemma frame_bind {A B} (m : M A) (k : A → M B) :
  frame_preserving m → (∀ a, frame_preserving (k a)) → frame_preserving (m ≫= k).
Proof.
  intros Hm Hk s c s' Hrun. rewrite bind_run in Hrun.
  destruct (m s) as [[a|exn] s1] eqn:Hms.
  - eapply preserves_trans; [eapply Hm, Hms | eapply Hk, Hrun].
  - injection Hrun as _ <-. eapply Hm, Hms.
Qed.

Lemma frame_alloc (o : object) : frame_preserving (alloc o).
Proof. intros s c s' Hrun. injection Hrun as _ <-. apply preserves_store. Qed.

Lemma frame_throw_new {A} (k : error_kind) (msg : string) :
  frame_preserving (@throw_new A k msg).
Proof.
  intros s c s' Hrun. rewrite throw_new_run in Hrun. injection Hrun as _ <-.
  apply preserves_store.
Qed.

Lemma frame_deref (l : loc) : frame_preserving (deref l).
Proof.
  intros s c s' Hrun. unfold deref in Hrun. destruct (heap s !! l).
  - injection Hrun as _ <-. apply preserves_refl.
  - eapply frame_throw_new, Hrun.
Qed.

Lemma frame_this_field (l : loc) (p : prop) : frame_preserving (this_field l p).
Proof. apply frame_bind; [apply frame_deref | intros o; apply frame_ret]. Qed.

Lemma frame_receiver (x : value) : frame_preserving (receiver x).
Proof.
  destruct x; try apply frame_throw_new.
  apply frame_bind; [apply frame_deref | intros o; apply frame_ret].
Qed.

Lemma frame_invoke (f : mapper) (args : list value) :
  frame_preserving (f args) → frame_preserving (invoke f args).
Proof. intros Hf s c s' Hrun. exact (Hf (called args s) c s' Hrun). Qed.

Lemma frame_example_Object_toString (l : loc) :
  frame_preserving (example_Object_toString l).
Proof.
  apply frame_bind; [apply frame_deref|].
  intros [ | | | |[] [|? ?]|]; apply frame_ret.
Qed.

Lemma frame_wrapping_mapper (args : list value) :
  frame_preserving (wrapping_mapper args).
Proof. apply frame_alloc. Qed.

(** Closes a goal [frame_preserving m] for [m] built from the pieces
    above. *)
Ltac frame :=
  repeat first
    [ apply frame_ret
    | apply frame_alloc
    | apply frame_throw_new
    | apply frame_deref
    | apply frame_this_field
    | apply frame_receiver
    | apply frame_invoke
    | assumption
    | apply frame_bind; [|intros ?] ].

Section Frame.
Context `{Runtime}.
Hypothesis host_frame : ∀ l, frame_preserving (Object_toString l).

Lemma frame_to_string (v : value) : frame_preserving (to_string v).
Proof.
  destruct v as [ | |[]| | | | |l]; unfold to_string;
    first [apply frame_ret | apply frame_throw_new | apply host_frame].
Qed.

Lemma frame_getter (o : object) (p : prop) (g : loc → M value) (l : loc) :
  getter o p = Some g → frame_preserving (g l).
Proof.
  intros Hg. destruct o, p; simpl in Hg; try discriminate Hg;
    injection Hg as <-;
    unfold OptionSome_some, OptionSome_none, OptionSome_unwrap, OptionNone_some,
           OptionNone_none, OptionNone_unwrap, ResultOk_ok, ResultOk_err,
           ResultOk_unwrap, ResultOk_to_option, ResultErr_valid, ResultErr_ok,
           ResultErr_err, ResultErr_unwrap, ResultErr_to_option;
    frame; try apply frame_to_string; frame.
Qed.

Lemma frame_get (x : value) (p : prop) : frame_preserving (get x p).
Proof.
  destruct x; unfold get; frame.
  destruct (own_field a p); [frame|].
  destruct (getter a p) eqn:Hg; [eapply frame_getter, Hg | frame].
Qed.

Lemma frame_js_and (a b : M value) :
  frame_preserving a → frame_preserving b → frame_preserving (js_and a b).
Proof.
  intros Ha Hb. unfold js_and. apply frame_bind; [exact Ha|].
  intros x. destruct (truthy x); [exact Hb | apply frame_ret].
Qed.

End Frame.

(** X13.  Containers are immutable: as long as the functions supplied
    by the caller and the string conversion of the host do not
    overwrite or remove an object themselves, no operation of the four
    classes does.  Whatever the receiver and the arguments, and whether
    the operation returns or throws, every object that was on the heap
    before is there unchanged afterwards: the combinators, [compare],
    [to_result], [unwrap_or], [expect], [expect_err] and every property
    read (the getters [unwrap] and [to_option] included) only ever add
    new objects. *)
Theorem operations_never_overwrite `{Runtime} (f : mapper) (x : value) :
  (∀ l, frame_preserving (Object_toString l)) →
  (∀ args, frame_preserving (f args)) →
  (∀ c, frame_preserving (call_combinator c x f)) ∧
  (∀ other, frame_preserving (call_compare x other)) ∧
  (∀ e, frame_preserving (call_to_result x e)) ∧
  (∀ d, frame_preserving (call_unwrap_or x d)) ∧
  (∀ msg, frame_preserving (call_expect x msg)) ∧
  (∀ msg, frame_preserving (call_expect_err x msg)) ∧
  (∀ p, frame_preserving (get x p)).
Proof.
  intros Hhost Hf.
  pose proof (frame_get Hhost) as Hget.
  pose proof (frame_to_string Hhost) as Hstr.
  repeat split.
  - intros c. destruct c; simpl;
      unfold call_and_then, call_or_else, call_map, call_map_err, not_a_function;
      (apply frame_bind; [apply frame_receiver|]); intros [this o]; destruct o;
      unfold OptionSome_and_then, OptionNone_and_then, ResultOk_and_then,
             ResultErr_and_then, OptionSome_or_else, OptionNone_or_else,
             ResultOk_or_else, ResultErr_or_else, OptionSome_map, OptionNone_map,
             ResultOk_map, ResultErr_map, ResultOk_map_err, ResultErr_map_err;
      frame; apply Hf.
  - intros other. unfold call_compare, not_a_function.
    (apply frame_bind; [apply frame_receiver|]); intros [this o]; destruct o;
      unfold OptionSome_compare, OptionNone_compare, ResultOk_compare,
             ResultErr_compare;
      first [ apply Hget
            | apply frame_js_and; [apply Hget|]; frame; apply Hget
            | frame ].
  - intros e. unfold call_to_result, not_a_function.
    (apply frame_bind; [apply frame_receiver|]); intros [this o]; destruct o;
      unfold OptionSome_to_result, OptionNone_to_result; frame.
  - intros d. unfold call_unwrap_or, not_a_function.
    (apply frame_bind; [apply frame_receiver|]); intros [this o]; destruct o;
      unfold OptionSome_unwrap_or, OptionNone_unwrap_or, ResultOk_unwrap_or,
             ResultErr_unwrap_or; frame.
  - intros msg. unfold call_expect, not_a_function.
    (apply frame_bind; [apply frame_receiver|]); intros [this o]; destruct o;
      unfold OptionSome_expect, OptionNone_expect, ResultOk_expect, ResultErr_expect;
      frame; try apply Hstr; frame.
  - intros msg. unfold call_expect_err, not_a_function.
    (apply frame_bind; [apply frame_receiver|]); intros [this o]; destruct o;
      unfold ResultOk_expect_err, ResultErr_expect_err; frame.
  - exact (Hget x).
Qed.

Lemma operations_never_overwrite_witness :
  (∀ l, frame_preserving (@Object_toString example_runtime l)) ∧
  (∀ args, frame_preserving (wrapping_mapper args)) ∧
  frame_preserving (@call_combinator example_runtime Map (VRef 1) wrapping_mapper) ∧
  frame_preserving (@get example_runtime (VRef 1) P_unwrap).
Proof.
  split; [exact frame_example_Object_toString|].
  split; [exact frame_wrapping_mapper|].
  destruct (@operations_never_overwrite example_runtime wrapping_mapper (VRef 1)
              frame_example_Object_toString frame_wrapping_mapper)
    as (Hcomb & _ & _ & _ & _ & _ & Hget).
  split; [apply Hcomb | apply Hget].
Defined.

(** *** How often the supplied function is called *)

Lemma trace_neutral_wrapping_mapper : trace_neutral wrapping_mapper.
Proof. intros args s c s' Hrun. injection Hrun as _ <-. reflexivity. Qed.

(** X14.  A combinator calls the supplied function at most once, and
    only with the payload.  On any live object and for a function that
    records no call of its own, the record of calls after
    [x.c(f)], whether it returned or threw, is the record before
    followed by the one call [f(payload)] when [c] acts on the variant
    of [x] ([and_then], [map] on [OptionSome] and [ResultOk]; [or_else],
    [map_err] on [ResultErr]; [or_else], without argument, on
    [OptionNone]), and is the record before in every other case. *)
Theorem combinator_calls_at_most_once `{Runtime}
    (s s' : state) (l : loc) (o : object) (c : combinator) (f : mapper)
    (r : completion value) :
  heap s !! l = Some o →
  trace_neutral f →
  call_combinator c (VRef l) f s = (r, s') →
  trace s' = (trace s ++ match call_args o c with
                         | Some args => [Call args]
                         | None => []
                         end)%list.
Proof.
  intros Hl Hf Hrun.
  assert (Hcall : ∀ args s1, f args (called args s) = (r, s1) →
                  trace s1 = (trace s ++ [Call args])%list).
  { intros args s1 Hfr. apply Hf in Hfr. exact Hfr. }
  assert (Hmapped : ∀ v wrap, (x ← invoke f [v]; alloc (wrap x)) s = (r, s') →
                    trace s' = (trace s ++ [Call [v]])%list).
  { intros v wrap Hm. rewrite bind_run in Hm. unfold invoke in Hm.
    destruct (f [v] _) as [[x|exn] s1] eqn:Hfr.
    - rewrite alloc_run in Hm. injection Hm as _ <-. simpl.
      apply Hf in Hfr. exact Hfr.
    - injection Hm as _ <-. apply Hf in Hfr. exact Hfr. }
  destruct c; simpl in Hrun;
    unfold call_and_then, call_or_else, call_map, call_map_err in Hrun;
    rewrite (call_run _ _ _ _ Hl) in Hrun;
    destruct o; simpl;
    unfold OptionSome_and_then, OptionNone_and_then, ResultOk_and_then,
           ResultErr_and_then, OptionSome_or_else, OptionNone_or_else,
           ResultOk_or_else, ResultErr_or_else, OptionSome_map, OptionNone_map,
           ResultOk_map, ResultErr_map, ResultOk_map_err, ResultErr_map_err,
           not_a_function in Hrun;
    try rewrite (bind_normal _ _ _ _ _ (this_field_run _ _ _ _ Hl)) in Hrun;
    simpl in Hrun;
    first
      [ apply (Hcall _ _ Hrun)
      | apply (Hmapped _ _ Hrun)
      | rewrite throw_new_run in Hrun; injection Hrun as _ <-;
        simpl; rewrite app_nil_r; reflexivity
      | injection Hrun as _ <-; rewrite app_nil_r; reflexivity ].
Qed.

Lemma combinator_calls_at_most_once_witness :
  let s := snd (some (num 42) empty_state) in
  let run := @call_combinator example_runtime Map (VRef 1) wrapping_mapper s in
  heap s !! 1%positive = Some (OptionSome (num 42)) ∧
  trace_neutral wrapping_mapper ∧
  trace (snd run) = (trace s ++ [Call [num 42]])%list.
Proof.
  split; [vm_compute; reflexivity|].
  split; [exact trace_neutral_wrapping_mapper|].
  apply (@combinator_calls_at_most_once example_runtime _ _ 1%positive
           (OptionSome (num 42)) Map wrapping_mapper
           (fst (@call_combinator example_runtime Map (VRef 1) wrapping_mapper
                   (snd (some (num 42) empty_state)))));
    [vm_compute; reflexivity | exact trace_neutral_wrapping_mapper
    | vm_compute; reflexivity].
Defined.

(** *** From an option to a result *)

(** X15.  What [to_result(e)] keeps.  On a live [OptionSome] holding
    [v] the argument [e] is dropped: [x.to_result(e).expect(m)] returns
    [v] and [x.to_result(e).expect_err(m)] throws an [Error] with the
    message [m], whatever [e] is.  On a live [OptionNone] the argument
    becomes the error: [x.to_result(e).expect_err(m)] returns [e], and
    [x.to_result(e).expect(m)] fails. *)
Theorem to_result_then_extract `{Runtime}
    (s : state) (l : loc) (o : object) (e : value) (m : string) :
  heap s !! l = Some o →
  (∀ v, o = OptionSome v →
     (∃ s', to_result_expect (VRef l) e m s = (Normal v, s')) ∧
     (∃ exn s', to_result_expect_err (VRef l) e m s = (Thrown exn, s') ∧
                failure_detail s' exn = Some m))
  ∧
  (o = OptionNone →
     (∃ s', to_result_expect_err (VRef l) e m s = (Normal e, s')) ∧
     fails (to_result_expect (VRef l) e m) s).
Proof.
  intros Hl. split.
  - intros v ->.
    pose proof (to_result_OptionSome s l v e Hl) as R.
    unfold to_result_expect, to_result_expect_err.
    rewrite !(bind_normal _ _ _ _ _ R).
    pose proof (store_new (ResultOk v) s) as Hnew. split.
    + exists (store (ResultOk v) s). unfold call_expect.
      rewrite (call_run _ _ _ _ Hnew). unfold ResultOk_expect.
      rewrite (this_field_run _ _ _ _ Hnew). reflexivity.
    + unfold call_expect_err.
      rewrite (bind_normal _ _ _ _ _ (receiver_run _ _ _ Hnew)).
      unfold ResultOk_expect_err. apply throw_new_detail.
  - intros ->.
    pose proof (to_result_OptionNone s l e Hl) as R.
    unfold to_result_expect, to_result_expect_err, fails.
    rewrite !(bind_normal _ _ _ _ _ R).
    pose proof (store_new (ResultErr e) s) as Hnew. split.
    + exists (store (ResultErr e) s). unfold call_expect_err.
      rewrite (bind_normal _ _ _ _ _ (receiver_run _ _ _ Hnew)).
      unfold ResultErr_expect_err. rewrite (this_field_run _ _ _ _ Hnew). reflexivity.
    + unfold call_expect. rewrite (call_run _ _ _ _ Hnew).
      destruct (ResultErr_throws m _ _ e Hnew) as (Hfails & _). exact Hfails.
Qed.

Lemma to_result_then_extract_witness :
  let s := snd (none empty_state) in
  heap s !! 1%positive = Some OptionNone ∧
  ∃ s', to_result_expect_err (VRef 1) (VString "gone") "m" s
        = (Normal (VString "gone"), s').
Proof.
  split; [vm_compute; reflexivity|].
  refine (proj1 (proj2 (@to_result_then_extract example_runtime _ 1%positive
                          OptionNone (VString "gone") "m" _) eq_refl)).
  vm_compute. reflexivity.
Defined.
